(** * Flappy Bird (flappy_bird.py): the simulation core, embedded and verified

    The development follows the Python source class by class:
    [Config], [Bird], [Wall], [WallPair] and [Game].  Objects are records,
    methods are functions that return the updated object (and the method's
    return value when it has one), exceptions are the [Raise] outcome of a
    small error monad.

    Numbers.  Python mixes [int] and [float] freely (gravity 0.4 is added
    to an integer start position).  Here an integer is a [Z] and a number
    that may be fractional is the rational [Q] it stands for: a [float] is
    the binary64 value nearest to what was written ([binary64]), and the
    avatar's arithmetic rounds as Python's does ([py_add]: whole numbers add
    exactly, any other sum is rounded to the nearest binary64 value, ties
    to even).  This is Python's arithmetic for numbers below [2 ^ 53] in
    size; exponents are not bounded above, so no sum overflows to infinity.
    The walls scroll by whole pixels unless the configuration says
    otherwise, and their [x -= speed] is kept exact.  A [pygame.Rect]
    stores integers: a number assigned to one of its attributes is rounded
    to the nearest integer, halves away from zero ([to_int]).

    Not modelled: images, fonts, the window and drawing. *)

From Stdlib Require Import ZArith QArith Qround Qabs Qpower Lia Lqa Floats.
From stdpp Require Import base option list strings gmap.

Set Warnings "-register-all".
#[local] Open Scope Z_scope.

(** ** Exceptions and the error monad *)

Inductive exn :=
| FileNotFoundError
| PermissionError
| UnicodeDecodeError
| JSONDecodeError
| AttributeError
| TypeError
| ValueError.

Inductive result (A : Type) :=
| Return (a : A)
| Raise (e : exn).
Arguments Return {A} a.
Arguments Raise {A} e.

#[global] Instance result_ret : MRet result := @Return.
#[global] Instance result_bind : MBind result := fun A B f m =>
  match m with
  | Return a => f a
  | Raise e => Raise e
  end.
#[global] Instance result_fmap : FMap result := fun A B f m =>
  match m with
  | Return a => Return (f a)
  | Raise e => Raise e
  end.

Definition returns {A} (m : result A) : bool :=
  match m with Return _ => true | Raise _ => false end.

(** ** Numbers *)

(** The integer [L] with [2 ^ L <= q < 2 ^ (L + 1)], for [q > 0]. *)
Definition floor_log2 (q : Q) : Z :=
  let k := Z.log2 (Qnum q) - Z.log2 (Z.pos (Qden q)) in
  if Qle_bool (2 ^ k) q then k else k - 1.

(** The nearest integer, ties to the even one. *)
Definition rne (x : Q) : Z :=
  let f := Qfloor x in
  match (x - inject_Z f ?= 1 # 2)%Q with
  | Lt => f
  | Eq => if Z.even f then f else f + 1
  | Gt => f + 1
  end.

(** Around [q] the binary64 values are the multiples of
    [2 ^ binary64_exp q]: 53 significant bits, exponents from -1074. *)
Definition binary64_exp (q : Q) : Z :=
  Z.max (floor_log2 (Qabs q) - 52) (-1074).

(** The [float] nearest to [q], as a fraction in lowest terms.  The
    computation starts from [q] in lowest terms, so that equal numbers
    round to the same fraction. *)
Definition binary64 (q : Q) : Q :=
  let r := Qred q in
  if Qeq_bool r 0 then 0%Q
  else
    let e := binary64_exp r in
    Qred (inject_Z (rne (r / 2 ^ e)) * 2 ^ e).

Definition is_integer (q : Q) : bool := Qeq_bool q (inject_Z (Qfloor q)).

(** Python's [+] and [*]: exact on two [int]s; as soon as a [float] takes
    part the result is the [float] nearest to the exact one.  A [float]
    that holds a whole number is taken for the [int] it equals, and an
    [int] next to a [float] for the [float] it equals: both are so for
    numbers below [2 ^ 53] in size, far beyond any position or velocity on
    the screen. *)
Definition py_add (a b : Q) : Q :=
  if is_integer a && is_integer b then Qred (a + b) else binary64 (a + b).

Definition py_mul (a b : Q) : Q :=
  if is_integer a && is_integer b then Qred (a * b) else binary64 (a * b).

(** ** Values decoded by [json.load] *)

(** [JFloat q] is a number written with a fraction or an exponent, [q]
    being what is written; Python holds the [float] nearest to it. *)

Inductive json :=
| JNull
| JBool (b : bool)
| JInt (n : Z)
| JFloat (q : Q)
| JStr (s : string)
| JList (l : list json)
| JDict (d : gmap string json).

(** [d.get(key, default)]: only a dict has the method. *)
Definition py_get (j : json) (key : string) (dflt : json) : result json :=
  match j with
  | JDict d => Return (default dflt (d !! key))
  | _ => Raise AttributeError
  end.

(** A value used in arithmetic ([bool] is a subclass of [int]). *)
Definition as_num (j : json) : result Q :=
  match j with
  | JInt n => Return (inject_Z n)
  | JFloat q => Return (binary64 q)
  | JBool b => Return (inject_Z (Z.b2z b))
  | _ => Raise TypeError
  end.

(** A value used where an integer is required (pixel sizes, bounds of
    [random.randint]).  The fields are typed when they are read, so a value
    the Python code would only reject at its first use is rejected here. *)
Definition as_int (j : json) : result Z :=
  match j with
  | JInt n => Return n
  | JBool b => Return (Z.b2z b)
  | _ => Raise TypeError
  end.

(** ** class Config *)

(** The disk maps a path to what [open(path)] followed by [json.load(f)]
    does: raise, or return the decoded document. *)
Definition disk := string -> result json.

Record Config := mkConfig {
  config_path : string;
  data : json
}.

(** [try: ... except FileNotFoundError: return {}]; every other exception
    propagates. *)
Definition load_config (fs : disk) (path : string) : result json :=
  match fs path with
  | Raise FileNotFoundError => Return (JDict ∅)
  | r => r
  end.

Definition Config_init (fs : disk) (path : string) : result Config :=
  d ← load_config fs path;
  Return (mkConfig path d).

Definition Config_get (c : Config) (key : string) : result json :=
  py_get (data c) key (JDict ∅).

(** ** pygame.Rect *)

Record Rect := mkRect { rx : Z; ry : Z; rw : Z; rh : Z }.

Definition top (r : Rect) : Z := ry r.
Definition left (r : Rect) : Z := rx r.
Definition bottom (r : Rect) : Z := ry r + rh r.
Definition right (r : Rect) : Z := rx r + rw r.

Definition set_x (r : Rect) (v : Z) : Rect := mkRect v (ry r) (rw r) (rh r).
Definition set_y (r : Rect) (v : Z) : Rect := mkRect (rx r) v (rw r) (rh r).
Definition set_top (r : Rect) (v : Z) : Rect := set_y r v.
Definition set_bottom (r : Rect) (v : Z) : Rect := set_y r (v - rh r).
Definition set_topleft (r : Rect) (vx vy : Z) : Rect :=
  mkRect vx vy (rw r) (rh r).
Definition set_bottomleft (r : Rect) (vx vy : Z) : Rect :=
  mkRect vx (vy - rh r) (rw r) (rh r).
Definition set_center (r : Rect) (vx vy : Z) : Rect :=
  mkRect (vx - Z.shiftr (rw r) 1) (vy - Z.shiftr (rh r) 1) (rw r) (rh r).

(** Conversion of a number assigned to a Rect attribute: the nearest
    integer, halves away from zero. *)
Definition to_int (q : Q) : Z :=
  if Qle_bool 0 q then Qfloor (q + (1 # 2)) else - Qfloor (- q + (1 # 2)).

(** [Rect.colliderect]: rectangles of zero width or height collide with
    nothing; touching edges do not overlap. *)
Definition colliderect (a b : Rect) : bool :=
  if (rw a =? 0) || (rh a =? 0) || (rw b =? 0) || (rh b =? 0) then false
  else (Z.min (rx a) (rx a + rw a) <? Z.max (rx b) (rx b + rw b))
    && (Z.min (ry a) (ry a + rh a) <? Z.max (ry b) (ry b + rh b))
    && (Z.min (rx b) (rx b + rw b) <? Z.max (rx a) (rx a + rw a))
    && (Z.min (ry b) (ry b + rh b) <? Z.max (ry a) (ry a + rh a)).

(** [pygame.transform.scale(image, (w, h)).get_rect()]: a rectangle of that
    size at the origin; a negative size is refused. *)
Definition scaled_rect (w h : Z) : result Rect :=
  if (w <? 0) || (h <? 0) then Raise ValueError
  else Return (mkRect 0 0 w h).

(** ** class MovingObject *)

(** Truth value of a Rect ([if self.rect:]): false for a rectangle of zero
    width or height. *)
Definition rect_bool (r : Rect) : bool :=
  negb (rw r =? 0) && negb (rh r =? 0).

(** [rect] is [None] until a subclass sets it. *)
Record MovingObject := mkMovingObject {
  mo_x : Q;
  mo_y : Q;
  mo_speed : Q;
  mo_dx : Q;
  mo_dy : Q;
  mo_rect : option Rect
}.

Definition MovingObject_init (x y : Q) : MovingObject :=
  mkMovingObject x y 0 0 0 None.

Definition move (o : MovingObject) : MovingObject :=
  let x := py_add (mo_x o) (py_mul (mo_dx o) (mo_speed o)) in
  let y := py_add (mo_y o) (py_mul (mo_dy o) (mo_speed o)) in
  mkMovingObject x y (mo_speed o) (mo_dx o) (mo_dy o)
    (match mo_rect o with
     | Some r =>
         if rect_bool r then Some (set_y (set_x r (to_int x)) (to_int y))
         else Some r
     | None => None
     end).

(** ** class Bird *)

Record Bird := mkBird {
  bird_x : Q;
  bird_y : Q;
  gravity : Q;
  jump_strength : Q;
  bird_width : Z;
  bird_height : Z;
  speed_y : Q;
  bird_rect : Rect
}.

Definition Bird_init (x y : Q) (config : Config) : result Bird :=
  bird_config ← Config_get config "bird_settings";
  g ← py_get bird_config "gravity" (JFloat 0.4) ≫= as_num;
  j ← py_get bird_config "jump_strength" (JInt (-6)) ≫= as_num;
  w ← py_get bird_config "width" (JInt 60) ≫= as_int;
  h ← py_get bird_config "height" (JInt 35) ≫= as_int;
  r ← scaled_rect w h;
  Return (mkBird x y g j w h 0 (set_center r (to_int x) (to_int y))).

Definition Bird_update (b : Bird) : Bird :=
  let speed := py_add (speed_y b) (gravity b) in
  let y := py_add (bird_y b) speed in
  mkBird (bird_x b) y (gravity b) (jump_strength b)
         (bird_width b) (bird_height b) speed
         (set_y (bird_rect b) (to_int y)).

Definition jump (b : Bird) : Bird :=
  mkBird (bird_x b) (bird_y b) (gravity b) (jump_strength b)
         (bird_width b) (bird_height b) (jump_strength b) (bird_rect b).

Inductive bound := TouchedTop | TouchedBottom.

Definition check_bounds (b : Bird) (screen_height : Z) : Bird * option bound :=
  if top (bird_rect b) <=? 0 then
    (mkBird (bird_x b) 0 (gravity b) (jump_strength b)
            (bird_width b) (bird_height b) 0
            (set_top (bird_rect b) 0),
     Some TouchedTop)
  else if screen_height <=? bottom (bird_rect b) then
    let r := set_bottom (bird_rect b) screen_height in
    (mkBird (bird_x b) (inject_Z (screen_height - rh r)) (gravity b)
            (jump_strength b) (bird_width b) (bird_height b) (speed_y b) r,
     Some TouchedBottom)
  else (b, None).

(** ** class Wall *)

Record Wall := mkWall {
  wall_x : Q;
  wall_y : Q;
  wall_speed : Q;
  wall_rect : Rect;
  passed : bool;
  flip : bool
}.

Definition Wall_init (x y : Q) (config : Config) (flipped : bool)
  : result Wall :=
  wall_config ← Config_get config "wall_settings";
  s ← py_get wall_config "speed" (JInt 2) ≫= as_num;
  w ← py_get wall_config "width" (JInt 100) ≫= as_int;
  h ← py_get wall_config "height" (JInt 500) ≫= as_int;
  r ← scaled_rect w h;
  let r' := if flipped then set_bottomleft r (to_int x) (to_int y)
            else set_topleft r (to_int x) (to_int y) in
  Return (mkWall x y s r' false flipped).

Definition Wall_update (w : Wall) : Wall :=
  let x := (wall_x w - wall_speed w)%Q in
  mkWall x (wall_y w) (wall_speed w) (set_x (wall_rect w) (to_int x))
         (passed w) (flip w).

Definition Wall_is_offscreen (w : Wall) : bool := right (wall_rect w) <? 0.

Definition Wall_check_collision (w : Wall) (bird_rect : Rect) : bool :=
  colliderect (wall_rect w) bird_rect.

Definition Wall_check_pass (w : Wall) (bird_rect : Rect) : Wall * bool :=
  if negb (passed w) && (right (wall_rect w) <? left bird_rect) then
    (mkWall (wall_x w) (wall_y w) (wall_speed w) (wall_rect w) true (flip w),
     true)
  else (w, false).

(** ** class WallPair *)

(** [random.randint(a, b)]: an empty range is refused; otherwise the value
    lies in [a, b].  The generator's raw output is an input of the model. *)
Definition randint (a b entropy : Z) : result Z :=
  if b <? a then Raise ValueError
  else Return (a + entropy mod (b - a + 1)).

(** [walls] is the list [[top_wall, bottom_wall]]; the two attributes
    [top_wall] and [bottom_wall] alias its elements and are read nowhere
    else, so the record keeps the list only. *)
Record WallPair := mkWallPair {
  gap_height : Q;
  min_height : Z;
  max_height : Z;
  wall_height : Z;
  screen_height : Z;
  walls : list Wall;
  scored : bool
}.

Definition top_wall (p : WallPair) : option Wall := walls p !! 0%nat.
Definition bottom_wall (p : WallPair) : option Wall := walls p !! 1%nat.

Definition set_walls (p : WallPair) (ws : list Wall) : WallPair :=
  mkWallPair (gap_height p) (min_height p) (max_height p) (wall_height p)
             (screen_height p) ws (scored p).

Definition WallPair_init (x : Q) (screen_h : Z) (config : Config)
  (entropy : Z) : result WallPair :=
  wall_config ← Config_get config "wall_settings";
  gap ← py_get wall_config "gap_height" (JInt 200) ≫= as_num;
  lo ← py_get wall_config "min_height" (JInt 100) ≫= as_int;
  hi ← py_get wall_config "max_height" (JInt 400) ≫= as_int;
  wh ← randint lo hi entropy;
  t ← Wall_init x (inject_Z wh) config true;
  b ← Wall_init x (py_add (inject_Z wh) gap) config false;
  Return (mkWallPair gap lo hi wh screen_h [t; b] false).

Definition WallPair_update (p : WallPair) : WallPair :=
  set_walls p (Wall_update <$> walls p).

Definition check_collisions (p : WallPair) (bird_rect : Rect) : bool :=
  existsb (fun w => Wall_check_collision w bird_rect) (walls p).

(** The loop of [WallPair.check_pass]: the walls as left by the loop, and
    whether it returned from inside. *)
Fixpoint check_pass_loop (ws : list Wall) (bird_rect : Rect)
  : list Wall * bool :=
  match ws with
  | [] => ([], false)
  | w :: rest =>
      if passed w then
        let '(rest', r) := check_pass_loop rest bird_rect in (w :: rest', r)
      else
        let '(w', fired) := Wall_check_pass w bird_rect in
        if fired then (w' :: rest, true)
        else
          let '(rest', r) := check_pass_loop rest bird_rect in
          (w' :: rest', r)
  end.

Definition WallPair_check_pass (p : WallPair) (bird_rect : Rect)
  : WallPair * bool :=
  if scored p then (p, false)
  else
    let '(ws, fired) := check_pass_loop (walls p) bird_rect in
    if fired then
      (mkWallPair (gap_height p) (min_height p) (max_height p)
                  (wall_height p) (screen_height p) ws true, true)
    else (set_walls p ws, false).

Definition WallPair_is_offscreen (p : WallPair) : bool :=
  forallb Wall_is_offscreen (walls p).

(** ** class Game *)

(** ['game'] is the spec's Active state, ['menu'] its Ended state. *)
Inductive status := InGame | InMenu.

Record Game := mkGame {
  config : Config;
  width : Z;
  height : Z;
  fps : Q;
  spawn_interval : Z;
  bird : Bird;
  wall_pairs : list WallPair;
  game_status : status;
  score : Z;
  running : bool
}.

Definition set_bird (g : Game) (b : Bird) : Game :=
  mkGame (config g) (width g) (height g) (fps g) (spawn_interval g) b
         (wall_pairs g) (game_status g) (score g) (running g).

Definition set_running (g : Game) (r : bool) : Game :=
  mkGame (config g) (width g) (height g) (fps g) (spawn_interval g) (bird g)
         (wall_pairs g) (game_status g) (score g) r.

Definition set_wall_pairs (g : Game) (ps : list WallPair) : Game :=
  mkGame (config g) (width g) (height g) (fps g) (spawn_interval g) (bird g)
         ps (game_status g) (score g) (running g).

(** The avatar at the configured start position, as both [Game.__init__]
    and [restart_game] build it. *)
Definition start_bird (cfg : Config) (h : Z) : result Bird :=
  bird_config ← Config_get cfg "bird_settings";
  start_x ← py_get bird_config "start_x" (JInt 100) ≫= as_num;
  start_y ← py_get bird_config "start_y" (JInt (h / 2)) ≫= as_num;
  Bird_init start_x start_y cfg.

Definition Game_init (fs : disk) : result Game :=
  cfg ← Config_init fs "bird_config.json";
  game_settings ← Config_get cfg "game_settings";
  w ← py_get game_settings "window_width" (JInt 600) ≫= as_int;
  h ← py_get game_settings "window_height" (JInt 500) ≫= as_int;
  f ← py_get game_settings "fps" (JInt 60) ≫= as_num;
  b ← start_bird cfg h;
  wall_config ← Config_get cfg "wall_settings";
  si ← py_get wall_config "spawn_interval" (JInt 1500) ≫= as_int;
  Return (mkGame cfg w h f si b [] InGame 0 true).

Definition restart_game (g : Game) : result Game :=
  b ← start_bird (config g) (height g);
  Return (mkGame (config g) (width g) (height g) (fps g) (spawn_interval g)
                 b [] InGame 0 (running g)).

(** Events delivered by [pygame.event.get()].  The timer event carries the
    raw output the random generator gives to the pair it spawns. *)
Inductive key := K_SPACE | K_OTHER.
Inductive event :=
| QUIT
| KEYDOWN (k : key)
| USEREVENT (entropy : Z)
| OTHER.

(** The body of the loop of [handle_events]: three independent tests. *)
Definition handle_event (g : Game) (e : event) : result Game :=
  let g1 := match e with QUIT => set_running g false | _ => g end in
  g2 ← match e with
       | KEYDOWN K_SPACE =>
           match game_status g1 with
           | InGame => Return (set_bird g1 (jump (bird g1)))
           | InMenu => restart_game g1
           end
       | _ => Return g1
       end;
  match e, game_status g2 with
  | USEREVENT entropy, InGame =>
      p ← WallPair_init (inject_Z (width g2)) (height g2) (config g2) entropy;
      Return (set_wall_pairs g2 (wall_pairs g2 ++ [p]))
  | _, _ => Return g2
  end.

Fixpoint handle_events (evs : list event) (g : Game) : result Game :=
  match evs with
  | [] => Return g
  | e :: rest => g' ← handle_event g e; handle_events rest g'
  end.

(** The loop of [update_game_logic] over the snapshot [wall_pairs[:]]:
    given the status and score on entry it yields the status, the score and
    the pairs left in [self.wall_pairs].  The pairs are distinct objects, so
    [remove(wall_pair)] drops exactly the pair at hand. *)
Fixpoint update_walls (bird_rect : Rect) (snapshot : list WallPair)
  (st : status) (sc : Z) : status * Z * list WallPair :=
  match snapshot with
  | [] => (st, sc, [])
  | wall_pair :: rest =>
      let p1 := WallPair_update wall_pair in
      let st1 := if check_collisions p1 bird_rect then InMenu else st in
      let '(p2, fired) := WallPair_check_pass p1 bird_rect in
      let sc1 := if fired then sc + 1 else sc in
      let '(st', sc', kept) := update_walls bird_rect rest st1 sc1 in
      (st', sc', if WallPair_is_offscreen p2 then kept else p2 :: kept)
  end.

Definition update_game_logic (g : Game) : Game :=
  match game_status g with
  | InMenu => g
  | InGame =>
      let '(b, bounds_result) := check_bounds (Bird_update (bird g)) (height g) in
      let st := match bounds_result with
                | Some TouchedBottom => InMenu
                | _ => InGame
                end in
      let '(st', sc', ps) := update_walls (bird_rect b) (wall_pairs g) st (score g) in
      mkGame (config g) (width g) (height g) (fps g) (spawn_interval g)
             b ps st' sc' (running g)
  end.

(** [run]: one list of events per iteration of the main loop. *)
Fixpoint run (frames : list (list event)) (g : Game) : result Game :=
  match frames with
  | [] => Return g
  | evs :: rest =>
      if running g then
        g' ← handle_events evs g;
        run rest (update_game_logic g')
      else Return g
  end.

(** * Vocabulary of the statements *)

(** ** The game started without a configuration file *)

Definition no_file : disk := fun _ => Raise FileNotFoundError.

Definition empty_config : Config := mkConfig "bird_config.json" (JDict ∅).

Definition default_bird : Bird :=
  mkBird 100 250 (binary64 0.4) (-6) 60 35 0 (mkRect 70 233 60 35).

Definition default_game : Game :=
  mkGame empty_config 600 500 60 1500 default_bird [] InGame 0 true.

(** The value a computation returned, or a fallback when it raised. *)
Definition returned {A} (fallback : A) (m : result A) : A :=
  match m with Return a => a | Raise _ => fallback end.

(** ** Numbers *)

(** The binary64 values: 53 significant bits, exponents from -1074. *)
Definition representable (q : Q) : Prop :=
  exists m e,
    -1074 <= e /\ Z.abs m <= 2 ^ 53 /\ (q == inject_Z m * 2 ^ e)%Q.

(** A number as Python holds one: an [int], or a [float]. *)
Definition number (q : Q) : Prop := is_integer q = true \/ representable q.

(** The number a finite hardware float stands for. *)
Definition Q_of_float (f : float) : Q :=
  match Prim2SF f with
  | S754_finite s m e =>
      ((if s then -1 else 1) * inject_Z (Z.pos m) * 2 ^ e)%Q
  | _ => 0%Q
  end.

(** The velocity after [n] gravity ticks from rest. *)
Definition fall (g : Q) (n : nat) : Q :=
  Nat.iter n (fun v => py_add v g) 0%Q.

(** ** Lifetimes of a bird, a wall and a pair *)

(** The calls made on the avatar, in order. *)
Inductive bird_call :=
| CallBirdUpdate
| CallJump
| CallCheckBounds (screen_height : Z).

Definition bird_call_run (b : Bird) (c : bird_call) : Bird :=
  match c with
  | CallBirdUpdate => Bird_update b
  | CallJump => jump b
  | CallCheckBounds h => fst (check_bounds b h)
  end.

Definition bird_calls (b : Bird) (cs : list bird_call) : Bird :=
  fold_left bird_call_run cs b.

(** [rect.centery]. *)
Definition centery (r : Rect) : Z := ry r + Z.shiftr (rh r) 1.

(** [y] is the top edge of the rectangle (as the integer the rectangle
    stores), and the rectangle has the avatar's height. *)
Definition y_is_top (b : Bird) : Prop :=
  top (bird_rect b) = to_int (bird_y b) /\ rh (bird_rect b) = bird_height b.

(** [Bird.update] on the hardware's binary64 values: the pair
    (speed_y, y). *)
Module Binary64.
Definition update (gravity : float) (s : float * float) : float * float :=
  let speed_y := (fst s + gravity)%float in
  (speed_y, (snd s + speed_y)%float).
End Binary64.

(** The calls made on one wall, in order. *)
Inductive wall_call :=
| CallUpdate
| CallCheckPass (bird_rect : Rect).

(** The wall after the calls, and what each [check_pass] call returned. *)
Fixpoint Wall_calls (w : Wall) (cs : list wall_call) : Wall * list bool :=
  match cs with
  | [] => (w, [])
  | CallUpdate :: rest => Wall_calls (Wall_update w) rest
  | CallCheckPass r :: rest =>
      let '(w1, fired) := Wall_check_pass w r in
      let '(w2, results) := Wall_calls w1 rest in
      (w2, fired :: results)
  end.

(** The geometric half of the pass test: the wall's right edge is strictly
    left of the rectangle's left edge. *)
Definition is_behind (r : Rect) (w : Wall) : bool :=
  right (wall_rect w) <? left r.

(** For each [check_pass] call, whether the wall was behind the rectangle
    at that moment. *)
Fixpoint behind (w : Wall) (cs : list wall_call) : list bool :=
  match cs with
  | [] => []
  | CallUpdate :: rest => behind (Wall_update w) rest
  | CallCheckPass r :: rest => is_behind r w :: behind w rest
  end.

(** Keep the first [true] of a list and clear the later ones. *)
Fixpoint once (l : list bool) : list bool :=
  match l with
  | [] => []
  | true :: rest => true :: ((fun _ => false) <$> rest)
  | false :: rest => false :: once rest
  end.

Fixpoint count_true (l : list bool) : nat :=
  match l with
  | [] => 0
  | b :: rest => (if b then 1 else 0) + count_true rest
  end.

(** The wall with its flag set, as [check_pass] leaves it when it fires. *)
Definition mark_passed (w : Wall) : Wall :=
  mkWall (wall_x w) (wall_y w) (wall_speed w) (wall_rect w) true (flip w).

(** A lifetime of [n] frames against a fixed rectangle: one [update] and
    one [check_pass] per frame. *)
Definition frames_against (r : Rect) (n : nat) : list wall_call :=
  concat (replicate n [CallUpdate; CallCheckPass r]).

(** The frames of one pair: in each, [update] and then [check_pass] against
    the avatar's rectangle of that frame. *)
Fixpoint WallPair_frames (p : WallPair) (rects : list Rect)
  : WallPair * list bool :=
  match rects with
  | [] => (p, [])
  | r :: rest =>
      let '(p1, fired) := WallPair_check_pass (WallPair_update p) r in
      let '(p2, results) := WallPair_frames p1 rest in
      (p2, fired :: results)
  end.

(** The walls of a pair built by the constructor stay side by side: same
    position, speed and width.  The top wall's flag is the pair's, the
    bottom wall's flag is clear. *)
Definition twin_walls (p : WallPair) : Prop :=
  exists t b,
    walls p = [t; b]
    /\ wall_x t = wall_x b /\ wall_speed t = wall_speed b
    /\ rx (wall_rect t) = rx (wall_rect b)
    /\ rw (wall_rect t) = rw (wall_rect b)
    /\ passed t = scored p /\ passed b = false.

(** ** One tick of the game *)

(** The avatar after the gravity tick and the bounds check of a frame, and
    what the bounds check reported. *)
Definition ticked_bird (g : Game) : Bird :=
  fst (check_bounds (Bird_update (bird g)) (height g)).
Definition touched (g : Game) : option bound :=
  snd (check_bounds (Bird_update (bird g)) (height g)).

Definition is_bottom (t : option bound) : bool :=
  match t with Some TouchedBottom => true | _ => false end.

(** What the loop of [update_game_logic] does with one pair, given the
    avatar's rectangle: the pair as it leaves the frame, whether its pass
    test fired, and whether it collided. *)
Definition after_tick (r : Rect) (p : WallPair) : WallPair :=
  fst (WallPair_check_pass (WallPair_update p) r).
Definition fires (r : Rect) (p : WallPair) : bool :=
  snd (WallPair_check_pass (WallPair_update p) r).
Definition hits (r : Rect) (p : WallPair) : bool :=
  check_collisions (WallPair_update p) r.
Definition on_screen (p : WallPair) : bool := negb (WallPair_is_offscreen p).

(** The number of pairs of [ps] whose pass test fires in a tick. *)
Definition count_fired (r : Rect) (ps : list WallPair) : Z :=
  Z.of_nat (length (List.filter (fires r) ps)).

Definition passes_in_tick (g : Game) : Z :=
  match game_status g with
  | InMenu => 0
  | InGame => count_fired (bird_rect (ticked_bird g)) (wall_pairs g)
  end.

(** The pairs not yet scored. *)
Definition unscored (ps : list WallPair) : Z :=
  Z.of_nat (length (List.filter (fun p => negb (scored p)) ps)).

(** ** Runs of the game *)

(** The number of spawn timer events. *)
Definition is_spawn (e : event) : Z :=
  match e with USEREVENT _ => 1 | _ => 0 end.
Definition spawned (evs : list event) : Z :=
  fold_right (fun e n => is_spawn e + n) 0 evs.

(** The score is never negative and, together with the unscored live
    pairs, never exceeds the bound [k]. *)
Definition within (k : Z) (g : Game) : Prop :=
  0 <= score g /\ score g + unscored (wall_pairs g) <= k.

(** The games the program can be in: built by [Game.__init__], then changed
    only by handling events and by ticks. *)
Inductive reachable : Game -> Prop :=
| reach_init (fs : disk) (g : Game) :
    Game_init fs = Return g -> reachable g
| reach_event (g g' : Game) (e : event) :
    reachable g -> handle_event g e = Return g' -> reachable g'
| reach_tick (g : Game) :
    reachable g -> reachable (update_game_logic g).

(** Building the start avatar succeeded once, with the configuration and
    the window height the game still has: it succeeds again. *)
Definition restartable (g : Game) : Prop :=
  exists b, start_bird (config g) (height g) = Return b.

(** ** Scenarios *)

(** Frame 1 delivers the spawn timer; no key is ever pressed. *)
Definition idle_frames (n : nat) : list (list event) :=
  [USEREVENT 50] :: replicate n [].

(** The default game after 32 such frames: the avatar is about to reach the
    floor; and after one more tick: the game is over. *)
Definition game_before_floor : Game :=
  returned default_game (run (idle_frames 31) default_game).
Definition game_over : Game := update_game_logic game_before_floor.

(** The left edges of the walls on screen. *)
Definition lefts (g : Game) : list (list Z) :=
  (fun p => (fun w => rx (wall_rect w)) <$> walls p) <$> wall_pairs g.

(** A wall as [Wall(600, 300, config)] builds it without a configuration
    file: speed 2, width 100. *)
Definition wall_at_600 : Wall :=
  mkWall 600 300 2 (mkRect 600 300 100 500) false false.

(** The pair spawned at the right edge of the default window when the
    generator yields [entropy]. *)
Definition pair_of (cfg : Config) (entropy : Z) : WallPair :=
  returned (mkWallPair 0 0 0 0 0 [] false)
           (WallPair_init 600 500 cfg entropy).

(** Without a configuration file and with a draw of 50: top wall down to
    150, gap 200. *)
Definition pair_150 : WallPair := pair_of empty_config 50.

Definition start_rect : Rect := bird_rect default_bird.

(** That pair after 315 frames (right edge at 70, level with the avatar's
    left edge, not yet passed) and after 350 frames (passed long ago, right
    edge at 0, still on screen). *)
Definition pair_about_to_pass : WallPair :=
  fst (WallPair_frames pair_150 (replicate 315 start_rect)).
Definition pair_about_to_leave : WallPair :=
  fst (WallPair_frames pair_150 (replicate 350 start_rect)).

(** A configuration file with whole-number physics: gravity 1, jump -10.
    Jumping every 19 frames from frame 21 on then keeps the avatar between
    415 and 460, inside the gap of a pair that drew 300 (top wall down to
    400); the first missed jump takes it to the floor 19 frames after the
    last one. *)
Definition integer_physics : json :=
  JDict {[ "bird_settings" :=
             JDict (<[ "gravity" := JInt 1 ]>
                      {[ "jump_strength" := JInt (-10) ]}) ]}.
Definition integer_physics_file : disk := fun _ => Return integer_physics.

Definition hover (last i : nat) : bool :=
  (21 <=? i)%nat && (i <=? last)%nat && ((i - 21) mod 19 =? 0)%nat.

(** Frames 1 to [n]: frame [i] holds a key press when [jumps i], and a
    spawn timer event for every entry of [spawns] at [i], with its draw. *)
Definition frames_of (jumps : nat -> bool) (spawns : list (nat * Z))
  (n : nat) : list (list event) :=
  (fun i =>
     (if jumps i then [KEYDOWN K_SPACE] else [])
     ++ (USEREVENT <$> (snd <$> List.filter (fun s => Nat.eqb (fst s) i) spawns)))
  <$> seq 1 n.

Definition played (fs : disk) (frames : list (list event)) : Game :=
  returned default_game (Game_init fs ≫= run frames).

(** Three games with those physics, each stopped one tick before it ends.
    In the first the last jump is in frame 382 and a pair spawned in frame 86
    is passed in frame 401; in the second the last jump is in frame 420 and a
    pair spawned in frame 89 leaves the screen in frame 439; in the third the
    pair spawned in frame 89 drew 0 (gap from 100 to 300) and reaches the
    avatar in frame 324. *)
Definition spawns_from_86 : list (nat * Z) :=
  [(86%nat, 300); (172%nat, 300); (258%nat, 300); (344%nat, 300)].
Definition spawns_from_89 : list (nat * Z) :=
  [(89%nat, 300); (178%nat, 300); (267%nat, 300); (356%nat, 300)].
Definition spawns_low_gap : list (nat * Z) := [(89%nat, 0); (178%nat, 300)].

(** A long game: a pair every 89 frames, the avatar hovering in the gap. *)
Definition spawns_every_89 : list (nat * Z) :=
  (fun k => ((89 * k)%nat, 300)) <$> seq 1 11.
Definition long_game : Game :=
  played integer_physics_file (frames_of (hover 1000) spawns_every_89 1000).

Definition floor_and_pass : Game :=
  played integer_physics_file (frames_of (hover 382) spawns_from_86 400).
Definition floor_and_leave : Game :=
  played integer_physics_file (frames_of (hover 420) spawns_from_89 438).
Definition crash : Game :=
  played integer_physics_file (frames_of (hover 420) spawns_low_gap 323).

(** Disks with a configuration file that cannot be used: one that does not
    decode, one that cannot be read, and one that decodes to a list. *)
Definition malformed_file : disk := fun _ => Raise JSONDecodeError.
Definition unreadable_file : disk := fun _ => Raise PermissionError.
Definition list_file : disk := fun _ => Return (JList []).

(** A configuration file that asks for a gap of 50 pixels. *)
Definition narrow_gap : json :=
  JDict {[ "wall_settings" := JDict {[ "gap_height" := JInt 50 ]} ]}.
Definition narrow_gap_file : disk := fun _ => Return narrow_gap.
Definition narrow_gap_config : Config := mkConfig "bird_config.json" narrow_gap.

(** A configuration file that asks for a gap of 200.5 pixels. *)
Definition fractional_gap_config : Config :=
  mkConfig "bird_config.json"
    (JDict {[ "wall_settings" := JDict {[ "gap_height" := JFloat 200.5 ]} ]}).

(** A configuration file that starts the avatar at y = 7. *)
Definition start_at_7 : json :=
  JDict {[ "bird_settings" := JDict {[ "start_y" := JInt 7 ]} ]}.
Definition start_at_7_file : disk := fun _ => Return start_at_7.

(** ** Vocabulary of the further properties *)

(** The avatar rests against the ceiling, as the bounds check leaves it
    when it reports the top. *)
Definition at_ceiling (b : Bird) : Prop :=
  bird_y b = 0%Q /\ speed_y b = 0%Q /\ top (bird_rect b) = 0.

(** The rectangle of a wall is where its [x] says. *)
Definition synced (w : Wall) : Prop := rx (wall_rect w) = to_int (wall_x w).

(** Everything of a wall but its flag. *)
Definition geometry (w : Wall) : Q * Q * Q * Rect * bool :=
  (wall_x w, wall_y w, wall_speed w, wall_rect w, flip w).

(** What holds of every pair in a game: its walls are side by side, their
    rectangles have sizes that are not negative and follow [x]. *)
Definition sound_wall (w : Wall) : Prop :=
  0 <= rw (wall_rect w) /\ 0 <= rh (wall_rect w) /\ synced w.
Definition well_built (p : WallPair) : Prop :=
  twin_walls p /\ Forall sound_wall (walls p).

(** The vertical placement of a pair: the top wall ends at [wall_height],
    the bottom wall starts at [wall_height + gap_height]. *)
Definition gap_kept (p : WallPair) : Prop :=
  exists t b,
    walls p = [t; b]
    /\ bottom (wall_rect t) = wall_height p
    /\ top (wall_rect b)
       = to_int (py_add (inject_Z (wall_height p)) (gap_height p))
    /\ 0 <= rh (wall_rect t) /\ 0 <= rh (wall_rect b).

(** The games that can follow [g0]. *)
Inductive reachable_from (g0 : Game) : Game -> Prop :=
| from_here : reachable_from g0 g0
| from_event (g g' : Game) (e : event) :
    reachable_from g0 g -> handle_event g e = Return g' ->
    reachable_from g0 g'
| from_tick (g : Game) :
    reachable_from g0 g -> reachable_from g0 (update_game_logic g).

(** Events that mean nothing to an Ended game. *)
Definition idle_in_menu (e : event) : bool :=
  match e with
  | QUIT | KEYDOWN K_SPACE => false
  | _ => true
  end.

Definition is_quit (e : event) : bool :=
  match e with QUIT => true | _ => false end.

Definition is_space (e : event) : bool :=
  match e with KEYDOWN K_SPACE => true | _ => false end.

(** The avatar at the ceiling without a configuration file, and a
    configuration whose height bounds are the wrong way round. *)
Definition bird_at_ceiling : Bird :=
  mkBird 100 0 (binary64 0.4) (-6) 60 35 0 (mkRect 70 0 60 35).

Definition crossed_bounds : json :=
  JDict {[ "wall_settings" :=
             JDict (<[ "min_height" := JInt 400 ]>
                      {[ "max_height" := JInt 100 ]}) ]}.
Definition crossed_bounds_config : Config :=
  mkConfig "bird_config.json" crossed_bounds.

(** Whether a decoded value is a dict. *)
Definition is_dict (j : json) : bool :=
  match j with JDict _ => true | _ => false end.

(** A configuration whose [bird_settings] is [null]. *)
Definition null_group_config : Config :=
  mkConfig "bird_config.json" (JDict {[ "bird_settings" := JNull ]}).

(** * Properties *)

(** ** The error monad *)

Lemma bind_Return {A B} (m : result A) (f : A -> result B) (b : B) :
  m ≫= f = Return b -> exists a, m = Return a /\ f a = Return b.
Proof. destruct m as [a|e]; [intros H; now exists a | discriminate]. Qed.

(** Peel the steps off a chain of binds that returned, when the values on
    the way do not matter. *)
Ltac peel_binds H :=
  repeat (let a := fresh "a" in
          let E := fresh "E" in
          apply bind_Return in H as (a & E & H)).

(** ** Numbers and rectangles *)

#[local] Open Scope Q_scope.

Lemma pow2_pos (e : Z) : (0 < 2 ^ e)%Q.
Proof. apply Qpower_0_lt. reflexivity. Qed.

Lemma pow2_add (a b : Z) : (2 ^ (a + b) == 2 ^ a * 2 ^ b)%Q.
Proof. apply Qpower_plus. discriminate. Qed.

Lemma pow2_le (a b : Z) : (a <= b)%Z -> (2 ^ a <= 2 ^ b)%Q.
Proof. intros H. apply Qpower_le_compat_l; [exact H | discriminate]. Qed.

Lemma pow2_Z (n : Z) : (0 <= n)%Z -> (inject_Z (2 ^ n) == 2 ^ n)%Q.
Proof. intros H. now rewrite Zpower_Qpower. Qed.

Lemma floor_log2_spec (q : Q) :
  (0 < q)%Q ->
  (2 ^ floor_log2 q <= q)%Q /\ (q < 2 ^ (floor_log2 q + 1))%Q.
Proof.
  intros Hq. unfold floor_log2.
  destruct q as [n d]. cbn [Qnum Qden].
  assert (Hn : (0 < n)%Z) by (unfold Qlt in Hq; cbn in Hq; lia).
  set (a := Z.log2 n). set (b := Z.log2 (Z.pos d)).
  destruct (Z.log2_spec n Hn) as [Ha1 Ha2].
  destruct (Z.log2_spec (Z.pos d) eq_refl) as [Hb1 Hb2].
  fold a in Ha1, Ha2. fold b in Hb1, Hb2.
  assert (Ha0 : (0 <= a)%Z) by apply Z.log2_nonneg.
  assert (Hb0 : (0 <= b)%Z) by apply Z.log2_nonneg.
  assert (Hqd : (n # d) * inject_Z (Z.pos d) == inject_Z n).
  { unfold Qeq, Qmult, inject_Z. cbn. lia. }
  assert (Hd : 0 < inject_Z (Z.pos d)) by reflexivity.
  assert (HA1 : 2 ^ a <= inject_Z n).
  { rewrite <- pow2_Z by exact Ha0. now rewrite <- Zle_Qle. }
  assert (HA2 : inject_Z n < 2 ^ (a + 1)).
  { rewrite <- pow2_Z by lia. rewrite <- Zlt_Qlt.
    now rewrite <- Z.add_1_r in Ha2. }
  assert (HB1 : 2 ^ b <= inject_Z (Z.pos d)).
  { rewrite <- pow2_Z by exact Hb0. now rewrite <- Zle_Qle. }
  assert (HB2 : inject_Z (Z.pos d) < 2 ^ (b + 1)).
  { rewrite <- pow2_Z by lia. rewrite <- Zlt_Qlt.
    now rewrite <- Z.add_1_r in Hb2. }
  set (Qd := inject_Z (Z.pos d)) in *. set (Qn := inject_Z n) in *.
  set (q := n # d) in *.
  assert (Hup : q < 2 ^ (a - b + 1)).
  { pose proof (pow2_add (a - b + 1) b) as E.
    replace (a - b + 1 + b)%Z with (a + 1)%Z in E by lia.
    pose proof (pow2_pos (a - b + 1)) as Hp.
    destruct (Qlt_le_dec q (2 ^ (a - b + 1))) as [|Hc]; [assumption|].
    exfalso.
    assert (2 ^ (a - b + 1) * 2 ^ b <= q * Qd).
    { apply Qmult_le_compat_nonneg.
      - split; [now apply Qlt_le_weak | exact Hc].
      - split; [apply Qlt_le_weak, pow2_pos | exact HB1]. }
    lra. }
  assert (Hlow : 2 ^ (a - b - 1) <= q).
  { pose proof (pow2_add (a - b - 1) (b + 1)) as E.
    replace (a - b - 1 + (b + 1))%Z with a in E by lia.
    pose proof (pow2_pos (a - b - 1)) as Hp.
    destruct (Qlt_le_dec q (2 ^ (a - b - 1))) as [Hc|]; [|assumption].
    exfalso.
    assert (q * Qd <= 2 ^ (a - b - 1) * 2 ^ (b + 1)).
    { apply Qmult_le_compat_nonneg.
      - split; [now apply Qlt_le_weak | now apply Qlt_le_weak].
      - split; [now apply Qlt_le_weak | now apply Qlt_le_weak]. }
    assert (q * Qd < 2 ^ (a - b - 1) * 2 ^ (b + 1)).
    { apply Qle_lt_trans with (2 ^ (a - b - 1) * Qd).
      - apply Qmult_le_compat_r; now apply Qlt_le_weak.
      - apply Qmult_lt_l; assumption. }
    lra. }
  destruct (Qle_bool (2 ^ (a - b)) q) eqn:E.
  - apply Qle_bool_iff in E. split; assumption.
  - assert (~ 2 ^ (a - b) <= q) by (rewrite <- Qle_bool_iff; congruence).
    replace (a - b - 1 + 1)%Z with (a - b)%Z by lia.
    split; [exact Hlow | now apply Qnot_le_lt].
Qed.

(** Case analysis on the absolute values of the goal. *)
Ltac qabs :=
  repeat match goal with
         | |- context [Qabs ?t] =>
             pattern (Qabs t); apply Qabs_case; intros ?
         end.

Lemma rne_cases (x : Q) :
  (rne x = Qfloor x /\ x - inject_Z (Qfloor x) <= 1 # 2)
  \/ (rne x = (Qfloor x + 1)%Z /\ 1 # 2 <= x - inject_Z (Qfloor x)).
Proof.
  unfold rne.
  destruct (x - inject_Z (Qfloor x) ?= 1 # 2) eqn:E.
  - apply Qeq_alt in E.
    destruct (Z.even (Qfloor x)); [left | right]; split; try reflexivity; lra.
  - apply Qlt_alt in E. left. split; [reflexivity | lra].
  - apply Qgt_alt in E. right. split; [reflexivity | lra].
Qed.

Lemma floor_bounds (x : Q) :
  inject_Z (Qfloor x) <= x /\ x < inject_Z (Qfloor x) + 1.
Proof.
  split; [apply Qfloor_le|].
  pose proof (Qlt_floor x) as H. now rewrite inject_Z_plus in H.
Qed.

(** No integer is nearer to [x] than [rne x]. *)
Lemma rne_nearest (x : Q) (k : Z) :
  Qabs (x - inject_Z (rne x)) <= Qabs (x - inject_Z k).
Proof.
  destruct (floor_bounds x) as [H1 H2].
  assert (Hk : inject_Z k <= inject_Z (Qfloor x)
               \/ inject_Z (Qfloor x) + 1 <= inject_Z k).
  { destruct (Z_le_gt_dec k (Qfloor x)) as [H|H].
    - left. now rewrite <- Zle_Qle.
    - right. rewrite <- (inject_Z_plus _ 1), <- Zle_Qle. lia. }
  destruct (rne_cases x) as [[-> H]|[-> H]];
    [|rewrite inject_Z_plus; change (inject_Z 1) with 1];
    qabs; lra.
Qed.

Lemma rne_bound (x : Q) (n : Z) :
  - inject_Z n <= x <= inject_Z n -> (- n <= rne x <= n)%Z.
Proof.
  intros [Hl Hu]. destruct (floor_bounds x) as [H1 H2].
  assert (Hf1 : (Qfloor x <= n)%Z).
  { rewrite Zle_Qle. lra. }
  assert (Hf2 : (- n <= Qfloor x)%Z).
  { rewrite <- (Qfloor_Z (- n)). apply Qfloor_resp_le.
    now rewrite inject_Z_opp. }
  destruct (rne_cases x) as [[-> H]|[-> H]]; [lia|].
  split; [lia|].
  assert (Hlt : (Qfloor x < n)%Z) by (rewrite Zlt_Qlt; lra).
  lia.
Qed.

Lemma binary64_exp_low (q : Q) : (-1074 <= binary64_exp q)%Z.
Proof. unfold binary64_exp. lia. Qed.

(** Around [q] the binary64 values are the multiples of [2 ^ binary64_exp q];
    [q] is less than [2 ^ 53] of them away from 0, and at least [2 ^ 52]
    unless the exponent is the least one. *)
Lemma binary64_exp_spec (q : Q) :
  ~ q == 0 ->
  Qabs q < 2 ^ 53 * 2 ^ binary64_exp q
  /\ ((-1074 < binary64_exp q)%Z -> 2 ^ 52 * 2 ^ binary64_exp q <= Qabs q).
Proof.
  intros Hq.
  assert (Hpos : 0 < Qabs q).
  { pose proof (Qabs_nonneg q) as H0.
    destruct (Qeq_dec (Qabs q) 0) as [E|E]; [|lra].
    exfalso. apply Hq. revert E. qabs; lra. }
  destruct (floor_log2_spec _ Hpos) as [H1 H2].
  unfold binary64_exp. set (L := floor_log2 (Qabs q)) in *.
  split.
  - rewrite <- pow2_add.
    apply Qlt_le_trans with (1 := H2). apply pow2_le. lia.
  - intros He. rewrite <- pow2_add.
    apply Qle_trans with (2 := H1). apply pow2_le. lia.
Qed.

Lemma binary64_unfold (q : Q) :
  ~ q == 0 ->
  binary64 q
  == inject_Z (rne (Qred q / 2 ^ binary64_exp (Qred q)))
     * 2 ^ binary64_exp (Qred q).
Proof.
  intros Hq. unfold binary64.
  destruct (Qeq_bool (Qred q) 0) eqn:E.
  - apply Qeq_bool_eq in E. rewrite Qred_correct in E. contradiction.
  - apply Qred_correct.
Qed.

Lemma binary64_zero (q : Q) : q == 0 -> binary64 q = 0.
Proof.
  intros Hq. unfold binary64.
  rewrite <- (Qred_correct q) in Hq. apply Qeq_eq_bool in Hq.
  now rewrite Hq.
Qed.

(** Equal numbers round to the same fraction. *)
Lemma binary64_compat (p q : Q) : p == q -> binary64 p = binary64 q.
Proof.
  intros H. unfold binary64. now rewrite (Qred_complete _ _ H).
Qed.

Lemma binary64_representable (q : Q) : representable (binary64 q).
Proof.
  destruct (Qeq_dec q 0) as [Hq|Hq].
  - rewrite (binary64_zero q Hq). exists 0%Z, 0%Z.
    split; [lia|]. split; [vm_compute; discriminate | reflexivity].
  - pose proof (binary64_unfold q Hq) as E.
    set (r := Qred q) in *. set (e := binary64_exp r) in *.
    assert (Hr : ~ r == 0) by (unfold r; now rewrite Qred_correct).
    exists (rne (r / 2 ^ e)), e.
    split; [apply binary64_exp_low|]. split; [|exact E].
    destruct (binary64_exp_spec r Hr) as [Hup _]. fold e in Hup.
    pose proof (pow2_pos e) as Hp.
    assert (Hx : r == (r / 2 ^ e) * 2 ^ e) by (field; lra).
    set (x := r / 2 ^ e) in *.
    pose proof (pow2_Z 53 ltac:(lia)) as E53.
    assert (Hb : - inject_Z (2 ^ 53) <= x <= inject_Z (2 ^ 53)).
    { rewrite E53. rewrite Hx in Hup.
      assert (H1 : x * 2 ^ e < 2 ^ 53 * 2 ^ e) by (revert Hup; qabs; lra).
      assert (H2 : (- 2 ^ 53) * 2 ^ e < x * 2 ^ e) by (revert Hup; qabs; lra).
      apply Qmult_lt_r in H1; [|exact Hp]. apply Qmult_lt_r in H2; [|exact Hp].
      lra. }
    apply rne_bound in Hb. lia.
Qed.

(** [binary64 q] is a binary64 value nearest to [q]. *)
Lemma binary64_nearest (q f : Q) :
  representable f -> Qabs (q - binary64 q) <= Qabs (q - f).
Proof.
  intros (mf & ef & Hef & Hmf & Hf).
  destruct (Qeq_dec q 0) as [Hq|Hq].
  { rewrite (binary64_zero q Hq). qabs; lra. }
  rewrite (binary64_unfold q Hq).
  assert (Hr : ~ Qred q == 0) by now rewrite Qred_correct.
  assert (Eq : q == Qred q) by now rewrite Qred_correct.
  set (r := Qred q) in *. set (e := binary64_exp r).
  rewrite Eq. clearbody r. clear q Hq Eq.
  pose proof (pow2_pos e) as Hp.
  assert (Hx : r == (r / 2 ^ e) * 2 ^ e) by (field; lra).
  set (x := r / 2 ^ e) in *.
  (* on the grid of [q], [rne] picks a nearest point *)
  assert (Hgrid : forall k : Z,
             Qabs (r - inject_Z (rne x) * 2 ^ e)
             <= Qabs (r - inject_Z k * 2 ^ e)).
  { intros k. pose proof (rne_nearest x k) as Hn. rewrite Hx at 1 2.
    setoid_replace (x * 2 ^ e - inject_Z (rne x) * 2 ^ e)
      with ((x - inject_Z (rne x)) * 2 ^ e) using relation Qeq by ring.
    setoid_replace (x * 2 ^ e - inject_Z k * 2 ^ e)
      with ((x - inject_Z k) * 2 ^ e) using relation Qeq by ring.
    rewrite !Qabs_Qmult, (Qabs_pos (2 ^ e)) by lra.
    apply Qmult_le_compat_r; [exact Hn | lra]. }
  destruct (Z_le_gt_dec e ef) as [Hle|Hgt].
  - (* [f] is on the grid *)
    assert (E : f == inject_Z (mf * 2 ^ (ef - e)) * 2 ^ e).
    { rewrite Hf, inject_Z_mult, pow2_Z by lia.
      rewrite <- Qmult_assoc, <- pow2_add.
      now replace (ef - e + e)%Z with ef by lia. }
    rewrite E. apply Hgrid.
  - (* [f] is closer to 0 than the binade of [q] *)
    destruct (binary64_exp_spec r Hr) as [_ Hlow]. fold e in Hlow.
    specialize (Hlow ltac:(lia)).
    assert (Hfb : - (2 ^ 52 * 2 ^ e) <= f <= 2 ^ 52 * 2 ^ e).
    { assert (H53 : 2 ^ 53 * 2 ^ ef <= 2 ^ 52 * 2 ^ e).
      { rewrite <- !pow2_add. apply pow2_le. lia. }
      pose proof (pow2_pos ef) as Hpf.
      pose proof (pow2_Z 53 ltac:(lia)) as E53.
      assert (Hm : - 2 ^ 53 <= inject_Z mf <= 2 ^ 53).
      { rewrite <- E53, <- inject_Z_opp, <- !Zle_Qle. lia. }
      destruct Hm as [Hm1 Hm2].
      apply (Qmult_le_compat_r _ _ (2 ^ ef)) in Hm1; [|lra].
      apply (Qmult_le_compat_r _ _ (2 ^ ef)) in Hm2; [|lra].
      rewrite Hf. lra. }
    pose proof (pow2_Z 52 ltac:(lia)) as E52.
    destruct (Qlt_le_dec r 0) as [Hneg|Hnn].
    + apply Qle_trans with (1 := Hgrid (- 2 ^ 52)%Z).
      rewrite inject_Z_opp, E52.
      revert Hlow. qabs; lra.
    + apply Qle_trans with (1 := Hgrid (2 ^ 52)%Z).
      rewrite E52.
      revert Hlow. qabs; lra.
Qed.

(** A binary64 value is not rounded. *)
Lemma binary64_fixed (q : Q) : representable q -> binary64 q == q.
Proof.
  intros H. pose proof (binary64_nearest q q H) as Hn.
  revert Hn. qabs; lra.
Qed.

Lemma binary64_idempotent (q : Q) : binary64 (binary64 q) == binary64 q.
Proof. apply binary64_fixed, binary64_representable. Qed.

(** Rounding is monotone. *)
Lemma binary64_le (p q : Q) : p <= q -> binary64 p <= binary64 q.
Proof.
  intros H. destruct (Qeq_dec p q) as [E|E].
  { rewrite (binary64_compat p q E). apply Qle_refl. }
  assert (Hlt : p < q) by (apply Qle_lteq in H; tauto).
  pose proof (binary64_nearest p (binary64 q) (binary64_representable q)) as H1.
  pose proof (binary64_nearest q (binary64 p) (binary64_representable p)) as H2.
  revert H1 H2. qabs; lra.
Qed.

Lemma representable_inject_Z (n : Z) :
  (Z.abs n <= 2 ^ 53)%Z -> representable (inject_Z n).
Proof.
  intros H. exists n, 0%Z. split; [lia|]. split; [exact H|].
  change (2 ^ 0) with 1. ring.
Qed.

Lemma binary64_nonneg (q : Q) : 0 <= q -> 0 <= binary64 q.
Proof.
  intros H. apply binary64_le in H. now rewrite (binary64_zero 0) in H.
Qed.

(** The rounding error is at most half the spacing of the grid:
    below [2 ^ k] it is at most [2 ^ (k - 54)]. *)
Lemma binary64_error (q : Q) (k : Z) :
  (-1021 <= k)%Z -> Qabs q <= 2 ^ k ->
  Qabs (q - binary64 q) <= 2 ^ (k - 53).
Proof.
  intros Hk Hq.
  set (e := (k - 53)%Z).
  pose proof (pow2_pos e) as Hp.
  set (f := inject_Z (Qfloor (q / 2 ^ e)) * 2 ^ e).
  assert (Hx : q == (q / 2 ^ e) * 2 ^ e) by (field; lra).
  destruct (floor_bounds (q / 2 ^ e)) as [H1 H2].
  set (x := q / 2 ^ e) in *.
  assert (Hf : representable f).
  { exists (Qfloor x), e. split; [lia|]. split; [|reflexivity].
    assert (Hb : - inject_Z (2 ^ 53) <= x <= inject_Z (2 ^ 53)).
    { rewrite pow2_Z by lia.
      assert (E : 2 ^ k == 2 ^ 53 * 2 ^ e).
      { rewrite <- pow2_add. now replace (53 + e)%Z with k by lia. }
      rewrite E, Hx in Hq.
      assert (Ha : x * 2 ^ e <= 2 ^ 53 * 2 ^ e) by (revert Hq; qabs; lra).
      assert (Hb : (- 2 ^ 53) * 2 ^ e <= x * 2 ^ e) by (revert Hq; qabs; lra).
      apply Qmult_le_r in Ha; [|exact Hp]. apply Qmult_le_r in Hb; [|exact Hp].
      lra. }
    destruct Hb as [Hb1 Hb2].
    assert ((Qfloor x <= 2 ^ 53)%Z) by (rewrite Zle_Qle; lra).
    assert ((- 2 ^ 53 <= Qfloor x)%Z).
    { rewrite <- (Qfloor_Z (- 2 ^ 53)). apply Qfloor_resp_le.
      now rewrite inject_Z_opp. }
    lia. }
  apply Qle_trans with (1 := binary64_nearest q f Hf).
  unfold f. rewrite Hx at 1.
  setoid_replace (x * 2 ^ e - inject_Z (Qfloor x) * 2 ^ e)
    with ((x - inject_Z (Qfloor x)) * 2 ^ e) using relation Qeq by ring.
  rewrite Qabs_Qmult, (Qabs_pos (2 ^ e)) by lra.
  rewrite <- (Qmult_1_l (2 ^ e)) at 2.
  apply Qmult_le_compat_r; [|lra]. qabs; lra.
Qed.

(** *** Whole numbers *)

Lemma is_integer_spec (q : Q) :
  is_integer q = true <-> exists n, q == inject_Z n.
Proof.
  unfold is_integer. rewrite Qeq_bool_iff. split.
  - intros H. now exists (Qfloor q).
  - intros [n H]. rewrite H at 2. now rewrite Qfloor_Z.
Qed.

Lemma is_integer_compat (p q : Q) : p == q -> is_integer p = is_integer q.
Proof.
  intros H. apply eq_true_iff_eq. rewrite !is_integer_spec.
  split; intros [n Hn]; exists n; [now rewrite <- H | now rewrite H].
Qed.

Lemma is_integer_inject_Z (n : Z) : is_integer (inject_Z n) = true.
Proof. apply is_integer_spec. now exists n. Qed.

(** *** Python's [+] *)

Lemma Qred_inject_Z (n : Z) : Qred (inject_Z n) = inject_Z n.
Proof.
  unfold Qred, inject_Z.
  pose proof (Z.ggcd_gcd n 1) as Hg.
  pose proof (Z.ggcd_correct_divisors n 1) as Hd.
  destruct (Z.ggcd n 1) as [g [aa bb]]. cbn [fst] in Hg.
  rewrite Z.gcd_1_r in Hg. subst g. destruct Hd as [-> Hb].
  replace bb with 1%Z by lia. now rewrite Z.mul_1_l.
Qed.

Lemma py_add_compat (a a' b b' : Q) :
  a == a' -> b == b' -> py_add a b = py_add a' b'.
Proof.
  intros Ha Hb. unfold py_add.
  rewrite (is_integer_compat a a' Ha), (is_integer_compat b b' Hb).
  assert (E : a + b == a' + b') by now rewrite Ha, Hb.
  destruct (is_integer a' && is_integer b').
  - now apply Qred_complete.
  - now apply binary64_compat.
Qed.

Lemma py_add_inject_Z (m n : Z) :
  py_add (inject_Z m) (inject_Z n) = inject_Z (m + n).
Proof.
  unfold py_add. rewrite !is_integer_inject_Z. cbn [andb].
  rewrite <- inject_Z_plus. apply Qred_inject_Z.
Qed.

Lemma is_integer_add (a b : Q) :
  is_integer a = true -> is_integer b = true ->
  is_integer (Qred (a + b)) = true.
Proof.
  intros Ha Hb.
  apply is_integer_spec in Ha as [m Hm]. apply is_integer_spec in Hb as [n Hn].
  apply is_integer_spec. exists (m + n)%Z.
  now rewrite Qred_correct, Hm, Hn, inject_Z_plus.
Qed.

Lemma py_add_number (a b : Q) : number (py_add a b).
Proof.
  unfold py_add. destruct (is_integer a && is_integer b) eqn:E.
  - left. apply andb_true_iff in E as [Ha Hb]. now apply is_integer_add.
  - right. apply binary64_representable.
Qed.

Lemma py_add_0_l (q : Q) : number q -> py_add 0 q == q.
Proof.
  intros H. unfold py_add. change (is_integer 0) with true. cbn [andb].
  destruct (is_integer q) eqn:E.
  - rewrite Qred_correct. ring.
  - destruct H as [H|H]; [congruence|].
    rewrite (binary64_compat (0 + q) q) by ring. now apply binary64_fixed.
Qed.

Lemma py_add_0_r (q : Q) : number q -> py_add q 0 == q.
Proof.
  intros H. unfold py_add. change (is_integer 0) with true.
  rewrite andb_true_r. destruct (is_integer q) eqn:E.
  - rewrite Qred_correct. ring.
  - destruct H as [H|H]; [congruence|].
    rewrite (binary64_compat (q + 0) q) by ring. now apply binary64_fixed.
Qed.

Lemma py_mul_compat (a a' b b' : Q) :
  a == a' -> b == b' -> py_mul a b = py_mul a' b'.
Proof.
  intros Ha Hb. unfold py_mul.
  rewrite (is_integer_compat a a' Ha), (is_integer_compat b b' Hb).
  assert (E : a * b == a' * b') by now rewrite Ha, Hb.
  destruct (is_integer a' && is_integer b').
  - now apply Qred_complete.
  - now apply binary64_compat.
Qed.

Lemma py_mul_inject_Z (m n : Z) :
  py_mul (inject_Z m) (inject_Z n) = inject_Z (m * n).
Proof.
  unfold py_mul. rewrite !is_integer_inject_Z. cbn [andb].
  rewrite <- inject_Z_mult. apply Qred_inject_Z.
Qed.

(** What is added is not negative: the sum is not smaller, for a [float]
    and for two [int]s. *)
Lemma py_add_le (a b : Q) :
  representable a \/ is_integer a && is_integer b = true ->
  0 <= b -> a <= py_add a b.
Proof.
  intros Ha Hb. unfold py_add.
  destruct (is_integer a && is_integer b).
  - rewrite Qred_correct. lra.
  - destruct Ha as [Ha|Ha]; [|discriminate].
    rewrite <- (binary64_fixed a Ha) at 1. apply binary64_le. lra.
Qed.

(** On the screen the sum is within [2 ^ -43] of the exact one. *)
Lemma py_add_error (a b : Q) :
  -1024 <= a + b <= 1024 ->
  - (1 # 8796093022208) <= py_add a b - (a + b) <= 1 # 8796093022208.
Proof.
  intros H. unfold py_add. destruct (is_integer a && is_integer b).
  - rewrite Qred_correct. lra.
  - pose proof (binary64_error (a + b) 10 ltac:(lia)) as E.
    change (2 ^ 10) with 1024 in E.
    change (2 ^ (10 - 53)) with (1 # 8796093022208) in E.
    assert (Ha : Qabs (a + b) <= 1024) by (qabs; lra).
    specialize (E Ha). revert E. qabs; lra.
Qed.

(** The sum is again a [float], or an [int] next to an [int]. *)
Lemma py_add_steady (a b : Q) :
  representable (py_add a b)
  \/ is_integer (py_add a b) && is_integer b = true.
Proof.
  unfold py_add. destruct (is_integer a && is_integer b) eqn:E.
  - right. apply andb_true_iff in E as [Ha Hb].
    now rewrite (is_integer_add a b Ha Hb), Hb.
  - left. apply binary64_representable.
Qed.

(** *** Conversion to a pixel *)

Lemma to_int_compat (p q : Q) : p == q -> to_int p = to_int q.
Proof.
  intros H. unfold to_int.
  assert (E : Qle_bool 0 p = Qle_bool 0 q).
  { apply eq_true_iff_eq. rewrite !Qle_bool_iff. now rewrite H. }
  rewrite E. destruct (Qle_bool 0 q).
  - apply Qfloor_comp. now rewrite H.
  - f_equal. apply Qfloor_comp. now rewrite H.
Qed.

Lemma to_int_inject_Z (z : Z) : to_int (inject_Z z) = z.
Proof.
  unfold to_int. destruct (Qle_bool 0 (inject_Z z)) eqn:E.
  - destruct (floor_bounds (inject_Z z + (1 # 2))) as [H1 H2].
    set (f := Qfloor _) in *.
    assert ((f <= z)%Z).
    { apply Z.lt_succ_r. rewrite Zlt_Qlt. unfold Z.succ.
      rewrite inject_Z_plus. change (inject_Z 1) with 1. lra. }
    assert ((z <= f)%Z).
    { apply Z.lt_succ_r. rewrite Zlt_Qlt. unfold Z.succ.
      rewrite inject_Z_plus. change (inject_Z 1) with 1. lra. }
    lia.
  - destruct (floor_bounds (- inject_Z z + (1 # 2))) as [H1 H2].
    set (f := Qfloor _) in *.
    assert ((f <= - z)%Z).
    { apply Z.lt_succ_r. rewrite Zlt_Qlt. unfold Z.succ.
      rewrite inject_Z_plus, inject_Z_opp. change (inject_Z 1) with 1. lra. }
    assert ((- z <= f)%Z).
    { apply Z.lt_succ_r. rewrite Zlt_Qlt. unfold Z.succ.
      rewrite inject_Z_plus, inject_Z_opp. change (inject_Z 1) with 1. lra. }
    lia.
Qed.

Lemma to_int_integral (q : Q) (z : Z) : q == inject_Z z -> to_int q = z.
Proof. intros H. rewrite (to_int_compat _ _ H). apply to_int_inject_Z. Qed.


(** Less than half a pixel below zero or above it is pixel 0. *)
Lemma to_int_below_half (q : Q) : q < 1 # 2 -> (to_int q <= 0)%Z.
Proof.
  intros H. unfold to_int. destruct (Qle_bool 0 q) eqn:E.
  - destruct (floor_bounds (q + (1 # 2))) as [H1 _].
    apply Z.lt_succ_r. rewrite Zlt_Qlt. change (inject_Z (Z.succ 0)) with 1.
    lra.
  - assert (~ 0 <= q) by (rewrite <- Qle_bool_iff; congruence).
    assert ((0 <= Qfloor (- q + (1 # 2)))%Z).
    { change 0%Z with (Qfloor 0). apply Qfloor_resp_le. lra. }
    lia.
Qed.

(** The pixel is within half a pixel of the number. *)
Lemma to_int_near (q : Q) :
  inject_Z (to_int q) - (1 # 2) <= q <= inject_Z (to_int q) + (1 # 2).
Proof.
  unfold to_int. destruct (Qle_bool 0 q) eqn:E.
  - destruct (floor_bounds (q + (1 # 2))) as [H1 H2]. lra.
  - destruct (floor_bounds (- q + (1 # 2))) as [H1 H2].
    rewrite inject_Z_opp. lra.
Qed.

#[local] Close Scope Q_scope.

(** ** Lookups in the empty configuration *)

Lemma py_get_empty (key : string) (dflt : json) :
  py_get (JDict ∅) key dflt = Return dflt.
Proof. unfold py_get. now rewrite lookup_empty. Qed.

Lemma Config_get_empty (key : string) :
  Config_get empty_config key = Return (JDict ∅).
Proof. unfold Config_get. apply py_get_empty. Qed.

Lemma Bird_init_default (x y : Q) :
  Bird_init x y empty_config
  = Return (mkBird x y (binary64 0.4) (-6) 60 35 0
              (set_center (mkRect 0 0 60 35) (to_int x) (to_int y))).
Proof.
  unfold Bird_init. rewrite Config_get_empty.
  cbn [mbind result_bind]. rewrite !py_get_empty. reflexivity.
Qed.

Lemma Wall_init_default (x y : Q) (fl : bool) :
  Wall_init x y empty_config fl
  = Return (mkWall x y 2
              (if fl then mkRect (to_int x) (to_int y - 500) 100 500
               else mkRect (to_int x) (to_int y) 100 500)
              false fl).
Proof.
  unfold Wall_init. rewrite Config_get_empty.
  cbn [mbind result_bind]. rewrite !py_get_empty. destruct fl; reflexivity.
Qed.

Lemma WallPair_init_default (x : Q) (h entropy : Z) :
  WallPair_init x h empty_config entropy
  = Return (mkWallPair 200 100 400 (100 + entropy mod 301) h
              [mkWall x (inject_Z (100 + entropy mod 301)) 2
                 (mkRect (to_int x) (100 + entropy mod 301 - 500) 100 500)
                 false true;
               mkWall x (inject_Z (100 + entropy mod 301 + 200)) 2
                 (mkRect (to_int x) (100 + entropy mod 301 + 200) 100 500)
                 false false]
              false).
Proof.
  unfold WallPair_init. rewrite Config_get_empty.
  cbn [mbind result_bind]. rewrite !py_get_empty.
  cbn [mbind result_bind as_num as_int].
  unfold randint. change (400 <? 100) with false. cbv iota.
  change (400 - 100 + 1) with 301.
  cbn [mbind result_bind]. rewrite py_add_inject_Z, !Wall_init_default.
  cbn [mbind result_bind]. rewrite !to_int_inject_Z. reflexivity.
Qed.

(** Every failure of [open] or [json.load] other than a missing file leaves
    [load_config] as it came, and [Game.__init__] with it. *)
Lemma other_failures_propagate (fs : disk) (e : exn) :
  e <> FileNotFoundError ->
  fs "bird_config.json" = Raise e ->
  load_config fs "bird_config.json" = Raise e /\ Game_init fs = Raise e.
Proof.
  intros Hne H.
  assert (Hl : load_config fs "bird_config.json" = Raise e).
  { unfold load_config. rewrite H. destruct e; congruence. }
  split; [exact Hl|].
  unfold Game_init, Config_init. now rewrite Hl.
Qed.

(** ** What the constructors return *)

Lemma Bird_init_Return (x y : Q) (cfg : Config) (b : Bird) :
  Bird_init x y cfg = Return b ->
  bird_x b = x /\ bird_y b = y /\ speed_y b = 0%Q
  /\ 0 <= bird_width b /\ 0 <= bird_height b
  /\ bird_rect b
     = set_center (mkRect 0 0 (bird_width b) (bird_height b))
                  (to_int x) (to_int y).
Proof.
  unfold Bird_init. intros H.
  apply bind_Return in H as (bc & _ & H).
  apply bind_Return in H as (gr & _ & H).
  apply bind_Return in H as (j & _ & H).
  apply bind_Return in H as (w & _ & H).
  apply bind_Return in H as (h & _ & H).
  apply bind_Return in H as (r & Hr & H).
  unfold scaled_rect in Hr.
  destruct (w <? 0) eqn:E1; [discriminate|].
  destruct (h <? 0) eqn:E2; [discriminate|].
  cbn in Hr. injection Hr as <-. injection H as <-.
  apply Z.ltb_ge in E1, E2. cbn. repeat split; assumption.
Qed.

Lemma start_bird_Return (cfg : Config) (h : Z) (b : Bird) :
  start_bird cfg h = Return b ->
  exists bird_config,
    Config_get cfg "bird_settings" = Return bird_config
    /\ py_get bird_config "start_x" (JInt 100) ≫= as_num = Return (bird_x b)
    /\ py_get bird_config "start_y" (JInt (h / 2)) ≫= as_num
       = Return (bird_y b)
    /\ Bird_init (bird_x b) (bird_y b) cfg = Return b.
Proof.
  unfold start_bird. intros H.
  apply bind_Return in H as (bc & Hbc & H).
  apply bind_Return in H as (sx & Hx & H).
  apply bind_Return in H as (sy & Hy & H).
  destruct (Bird_init_Return sx sy cfg b H) as (<- & <- & _).
  exists bc. repeat split; assumption.
Qed.

Lemma restart_game_Return (g g' : Game) :
  restart_game g = Return g' ->
  exists b, start_bird (config g) (height g) = Return b
    /\ g' = mkGame (config g) (width g) (height g) (fps g) (spawn_interval g)
                   b [] InGame 0 (running g).
Proof.
  unfold restart_game. intros H.
  apply bind_Return in H as (b & Hb & H). exists b.
  split; [exact Hb | now injection H].
Qed.

Lemma Wall_init_fresh (x y : Q) (cfg : Config) (fl : bool) (w : Wall) :
  Wall_init x y cfg fl = Return w ->
  passed w = false /\ wall_x w = x /\ wall_y w = y /\ flip w = fl
  /\ 0 <= rw (wall_rect w) /\ 0 <= rh (wall_rect w)
  /\ rx (wall_rect w) = to_int x
  /\ ry (wall_rect w) = (if fl then to_int y - rh (wall_rect w) else to_int y).
Proof.
  unfold Wall_init. intros H.
  apply bind_Return in H as (wc & _ & H).
  apply bind_Return in H as (s & _ & H).
  apply bind_Return in H as (wd & _ & H).
  apply bind_Return in H as (ht & _ & H).
  apply bind_Return in H as (r & Hr & H).
  unfold scaled_rect in Hr.
  destruct (wd <? 0) eqn:E1; [discriminate|].
  destruct (ht <? 0) eqn:E2; [discriminate|].
  cbn in Hr. injection Hr as <-. injection H as <-.
  apply Z.ltb_ge in E1, E2.
  destruct fl; cbn; repeat split; assumption.
Qed.

Lemma Wall_init_same_config (x y y' : Q) (cfg : Config) (fl fl' : bool)
  (w w' : Wall) :
  Wall_init x y cfg fl = Return w -> Wall_init x y' cfg fl' = Return w' ->
  wall_speed w = wall_speed w' /\ rw (wall_rect w) = rw (wall_rect w').
Proof.
  unfold Wall_init. intros H H'.
  apply bind_Return in H as (wc & Hwc & H). rewrite Hwc in H'.
  apply bind_Return in H as (s & Hs & H). cbn [mbind result_bind] in H'.
  rewrite Hs in H'.
  apply bind_Return in H as (wd & Hwd & H). cbn [mbind result_bind] in H'.
  rewrite Hwd in H'.
  apply bind_Return in H as (ht & Hht & H). cbn [mbind result_bind] in H'.
  rewrite Hht in H'.
  apply bind_Return in H as (r & Hr & H). cbn [mbind result_bind] in H'.
  rewrite Hr in H'. cbn [mbind result_bind] in H'.
  injection H as <-. injection H' as <-.
  unfold scaled_rect in Hr. destruct ((wd <? 0) || (ht <? 0)); [discriminate|].
  injection Hr as <-. destruct fl, fl'; now split.
Qed.

Lemma randint_range (a b entropy v : Z) :
  randint a b entropy = Return v -> a <= v <= b.
Proof.
  unfold randint. destruct (b <? a) eqn:E; [discriminate|].
  apply Z.ltb_ge in E. intros H. injection H as <-.
  pose proof (Z.mod_pos_bound entropy (b - a + 1)). lia.
Qed.

(** Every value of the range is drawn for some output of the generator. *)
Lemma randint_onto (a b v : Z) :
  a <= v <= b -> randint a b (v - a) = Return v.
Proof.
  intros H. unfold randint.
  destruct (b <? a) eqn:E; [apply Z.ltb_lt in E; lia|].
  rewrite Z.mod_small by lia. f_equal. lia.
Qed.

Lemma WallPair_init_scored (x : Q) (h : Z) (cfg : Config) (e : Z)
  (p : WallPair) :
  WallPair_init x h cfg e = Return p -> scored p = false.
Proof.
  unfold WallPair_init. intros H. peel_binds H. now injection H as <-.
Qed.

(** ** Bird: gravity and the bounds check *)

Lemma Bird_update_speed (b : Bird) :
  speed_y (Bird_update b) = py_add (speed_y b) (gravity b).
Proof. reflexivity. Qed.

Lemma Bird_update_y (b : Bird) :
  bird_y (Bird_update b)
  = py_add (bird_y b) (py_add (speed_y b) (gravity b)).
Proof. reflexivity. Qed.

Lemma Bird_update_gravity (b : Bird) : gravity (Bird_update b) = gravity b.
Proof. reflexivity. Qed.

Lemma iter_update_gravity (n : nat) (b : Bird) :
  gravity (Nat.iter n Bird_update b) = gravity b.
Proof. induction n as [|n IH]; [reflexivity|]. simpl. exact IH. Qed.

(** With a gravity that is not negative the velocity never decreases. *)
Lemma iter_update_speed_le (n : nat) (b : Bird) :
  (0 <= gravity b)%Q -> representable (speed_y b) ->
  (speed_y (Nat.iter n Bird_update b)
   <= speed_y (Nat.iter (S n) Bird_update b))%Q.
Proof.
  intros Hg Hs.
  change (Nat.iter (S n) Bird_update b)
    with (Bird_update (Nat.iter n Bird_update b)).
  rewrite Bird_update_speed, iter_update_gravity.
  apply py_add_le; [|exact Hg].
  destruct n as [|n]; [now left|].
  change (Nat.iter (S n) Bird_update b)
    with (Bird_update (Nat.iter n Bird_update b)).
  rewrite Bird_update_speed, iter_update_gravity. apply py_add_steady.
Qed.

(** From rest the velocity follows [fall], and [y] gains it tick by
    tick. *)
Lemma iter_update_fall (n : nat) (b : Bird) (g : Q) :
  (speed_y b == 0)%Q -> (gravity b == g)%Q ->
  speed_y (Nat.iter (S n) Bird_update b) = fall g (S n)
  /\ bird_y (Nat.iter (S n) Bird_update b)
     = py_add (bird_y (Nat.iter n Bird_update b)) (fall g (S n)).
Proof.
  intros Hs Hg.
  assert (Hv : forall k, speed_y (Nat.iter (S k) Bird_update b) = fall g (S k)).
  { induction k as [|k IH].
    - change (speed_y (Nat.iter 1 Bird_update b))
        with (py_add (speed_y b) (gravity b)).
      now apply py_add_compat.
    - change (Nat.iter (S (S k)) Bird_update b)
        with (Bird_update (Nat.iter (S k) Bird_update b)).
      rewrite Bird_update_speed, IH, iter_update_gravity.
      change (fall g (S (S k))) with (py_add (fall g (S k)) g).
      now apply py_add_compat. }
  split; [apply Hv|].
  change (Nat.iter (S n) Bird_update b)
    with (Bird_update (Nat.iter n Bird_update b)) at 1.
  rewrite Bird_update_y, <- Bird_update_speed.
  change (Bird_update (Nat.iter n Bird_update b))
    with (Nat.iter (S n) Bird_update b).
  now rewrite Hv.
Qed.

(** What a gravity tick computes is a number Python can hold. *)
Lemma Bird_update_number (b : Bird) :
  number (speed_y (Bird_update b)) /\ number (bird_y (Bird_update b)).
Proof. split; apply py_add_number. Qed.

Lemma check_bounds_cases (b : Bird) (h : Z) :
  match snd (check_bounds b h) with
  | Some TouchedTop =>
      top (bird_rect b) <= 0
      /\ speed_y (fst (check_bounds b h)) = 0%Q
      /\ bird_y (fst (check_bounds b h)) = 0%Q
      /\ top (bird_rect (fst (check_bounds b h))) = 0
  | Some TouchedBottom =>
      0 < top (bird_rect b) /\ h <= bottom (bird_rect b)
      /\ speed_y (fst (check_bounds b h)) = speed_y b
      /\ bird_y (fst (check_bounds b h))
         = inject_Z (h - rh (bird_rect b))
      /\ bottom (bird_rect (fst (check_bounds b h))) = h
  | None =>
      0 < top (bird_rect b) /\ bottom (bird_rect b) < h
      /\ fst (check_bounds b h) = b
  end.
Proof.
  unfold check_bounds.
  destruct (top (bird_rect b) <=? 0) eqn:E1.
  - apply Z.leb_le in E1. cbn. repeat split. exact E1.
  - apply Z.leb_gt in E1.
    destruct (h <=? bottom (bird_rect b)) eqn:E2.
    + apply Z.leb_le in E2. cbn. repeat split; try assumption.
      unfold bottom. cbn. lia.
    + apply Z.leb_gt in E2. cbn. repeat split; assumption.
Qed.

Lemma Bird_update_y_is_top (b : Bird) :
  rh (bird_rect b) = bird_height b -> y_is_top (Bird_update b).
Proof. intros H. split; [reflexivity | exact H]. Qed.

Lemma bird_call_run_y_is_top (b : Bird) (c : bird_call) :
  y_is_top b -> y_is_top (bird_call_run b c).
Proof.
  intros [Ht Hh]. destruct c as [| |h]; cbn [bird_call_run].
  - now apply Bird_update_y_is_top.
  - split; assumption.
  - unfold check_bounds.
    destruct (top (bird_rect b) <=? 0); [|destruct (h <=? bottom (bird_rect b))];
      cbn [fst].
    + split; [reflexivity | exact Hh].
    + split; [|exact Hh]. cbn. now rewrite to_int_inject_Z.
    + split; assumption.
Qed.

Lemma bird_calls_y_is_top (cs : list bird_call) (b : Bird) :
  y_is_top b -> y_is_top (bird_calls b cs).
Proof.
  revert b. induction cs as [|c cs IH]; intros b H; [exact H|].
  apply IH. now apply bird_call_run_y_is_top.
Qed.

(** ** Wall: scrolling *)

Lemma Wall_update_rect_w (w : Wall) :
  rw (wall_rect (Wall_update w)) = rw (wall_rect w).
Proof. reflexivity. Qed.

Lemma iter_Wall_update_speed (n : nat) (w : Wall) :
  wall_speed (Nat.iter n Wall_update w) = wall_speed w.
Proof. induction n as [|n IH]; [reflexivity|]. simpl. exact IH. Qed.

Lemma iter_Wall_update_rect_w (n : nat) (w : Wall) :
  rw (wall_rect (Nat.iter n Wall_update w)) = rw (wall_rect w).
Proof. induction n as [|n IH]; [reflexivity|]. simpl. exact IH. Qed.

Lemma iter_Wall_update_passed (n : nat) (w : Wall) :
  passed (Nat.iter n Wall_update w) = passed w.
Proof. induction n as [|n IH]; [reflexivity|]. simpl. exact IH. Qed.

(** After [n] ticks the wall has moved left by [n] times its speed. *)
Lemma iter_Wall_update_x (n : nat) (w : Wall) :
  (wall_x (Nat.iter n Wall_update w)
   == wall_x w - inject_Z (Z.of_nat n) * wall_speed w)%Q.
Proof.
  induction n as [|n IH].
  - simpl. ring.
  - change (Nat.iter (S n) Wall_update w)
      with (Wall_update (Nat.iter n Wall_update w)).
    unfold Wall_update at 1; simpl wall_x.
    rewrite IH, iter_Wall_update_speed.
    rewrite Nat2Z.inj_succ. unfold Z.succ. rewrite inject_Z_plus. ring.
Qed.

(** From the first tick on, the footprint's left edge is [x] rounded to a
    pixel. *)
Lemma iter_Wall_update_rect_x (n : nat) (w : Wall) :
  rx (wall_rect (Nat.iter (S n) Wall_update w))
  = to_int (wall_x (Nat.iter (S n) Wall_update w)).
Proof. reflexivity. Qed.

Example wall_at_600_built :
  Wall_init 600 300 empty_config false = Return wall_at_600.
Proof. reflexivity. Qed.

(** A wall that scrolls by 2.5 pixels is at 597.5 after one tick, its
    rectangle at pixel 598. *)
Example wall_with_fractional_speed :
  let w := Wall_update (mkWall 600 300 2.5 (mkRect 600 300 100 500)
                               false false) in
  wall_x w = 597.5%Q /\ rx (wall_rect w) = 598.
Proof. vm_compute. split; reflexivity. Qed.

(** ** Wall: the pass test over a lifetime *)

Lemma Wall_check_pass_passed (w : Wall) (r : Rect) :
  passed w = true -> Wall_check_pass w r = (w, false).
Proof. intros H. unfold Wall_check_pass. now rewrite H. Qed.

Lemma Wall_check_pass_fresh (w : Wall) (r : Rect) :
  passed w = false ->
  Wall_check_pass w r
  = if is_behind r w then (mark_passed w, true) else (w, false).
Proof. intros H. unfold Wall_check_pass. now rewrite H. Qed.

Lemma behind_mark_passed (w : Wall) (cs : list wall_call) :
  behind (mark_passed w) cs = behind w cs.
Proof.
  revert w. induction cs as [|[|r] cs IH]; intros w; simpl.
  - reflexivity.
  - exact (IH (Wall_update w)).
  - f_equal. apply IH.
Qed.

Lemma count_true_all_false {A} (l : list A) :
  count_true ((fun _ => false) <$> l) = 0%nat.
Proof. induction l as [|a l IH]; [reflexivity|exact IH]. Qed.

Lemma count_true_once (l : list bool) :
  count_true (once l) = if existsb id l then 1%nat else 0%nat.
Proof.
  induction l as [|[|] l IH]; simpl.
  - reflexivity.
  - now rewrite count_true_all_false.
  - exact IH.
Qed.

(** Once the flag is set, every later call returns false and the flag
    stays set. *)
Lemma Wall_calls_passed (w : Wall) (cs : list wall_call) :
  passed w = true ->
  snd (Wall_calls w cs) = ((fun _ => false) <$> behind w cs)
  /\ passed (fst (Wall_calls w cs)) = true.
Proof.
  revert w. induction cs as [|[|r] cs IH]; intros w Hp; simpl.
  - now split.
  - apply IH. exact Hp.
  - rewrite Wall_check_pass_passed by exact Hp.
    destruct (IH w Hp) as [H1 H2].
    destruct (Wall_calls w cs) as [w2 results]; simpl in *.
    split; [now rewrite H1 | exact H2].
Qed.

(** From a wall whose flag is clear, the calls return true at the first
    call that finds the wall behind the rectangle, and only there. *)
Lemma Wall_calls_fresh (w : Wall) (cs : list wall_call) :
  passed w = false ->
  snd (Wall_calls w cs) = once (behind w cs)
  /\ passed (fst (Wall_calls w cs)) = existsb id (behind w cs).
Proof.
  revert w. induction cs as [|[|r] cs IH]; intros w Hp; simpl.
  - now split.
  - apply IH. exact Hp.
  - rewrite Wall_check_pass_fresh by exact Hp.
    destruct (is_behind r w) eqn:E.
    + destruct (Wall_calls_passed (mark_passed w) cs eq_refl) as [H1 H2].
      rewrite behind_mark_passed in H1.
      destruct (Wall_calls (mark_passed w) cs) as [w2 results]; simpl in *.
      split; [now rewrite H1 | exact H2].
    + destruct (IH w Hp) as [H1 H2].
      destruct (Wall_calls w cs) as [w2 results]; simpl in *.
      split; [now rewrite H1 | exact H2].
Qed.

(** ** WallPair: the pass test over a lifetime *)

Lemma WallPair_update_scored (p : WallPair) :
  scored (WallPair_update p) = scored p.
Proof. reflexivity. Qed.

Lemma WallPair_check_pass_scored (p : WallPair) (r : Rect) :
  scored p = true -> WallPair_check_pass p r = (p, false).
Proof. intros H. unfold WallPair_check_pass. now rewrite H. Qed.

(** A call that fires finds the flag clear and sets it; a call that does
    not fire leaves the flag alone. *)
Lemma WallPair_check_pass_flag (p : WallPair) (r : Rect) :
  scored (fst (WallPair_check_pass p r))
  = scored p || snd (WallPair_check_pass p r)
  /\ (snd (WallPair_check_pass p r) = true -> scored p = false).
Proof.
  unfold WallPair_check_pass.
  destruct (scored p) eqn:Hs; [now split|].
  destruct (check_pass_loop (walls p) r) as [ws [|]]; simpl; now split.
Qed.

Lemma WallPair_frames_scored (p : WallPair) (rects : list Rect) :
  scored p = true -> count_true (snd (WallPair_frames p rects)) = 0%nat.
Proof.
  revert p. induction rects as [|r rects IH]; intros p Hs; simpl.
  - reflexivity.
  - rewrite WallPair_check_pass_scored by exact Hs.
    specialize (IH (WallPair_update p) Hs).
    destruct (WallPair_frames (WallPair_update p) rects) as [p2 results].
    exact IH.
Qed.

Lemma WallPair_frames_at_most_once (p : WallPair) (rects : list Rect) :
  (count_true (snd (WallPair_frames p rects)) <= 1)%nat.
Proof.
  revert p. induction rects as [|r rects IH]; intros p; simpl.
  - lia.
  - destruct (WallPair_check_pass_flag (WallPair_update p) r) as [Hf _].
    destruct (WallPair_check_pass (WallPair_update p) r) as [p1 fired] eqn:E.
    simpl in Hf.
    pose proof (IH p1) as Hle.
    pose proof (WallPair_frames_scored p1 rects) as H0.
    destruct (WallPair_frames p1 rects) as [p2 results]; simpl in *.
    destruct fired.
    + rewrite H0; [lia|]. rewrite Hf. apply orb_true_r.
    + exact Hle.
Qed.

(** ** WallPair: the two walls *)

Lemma WallPair_init_twin (x : Q) (h : Z) (cfg : Config) (entropy : Z)
  (p : WallPair) :
  WallPair_init x h cfg entropy = Return p -> twin_walls p.
Proof.
  unfold WallPair_init. intros H.
  apply bind_Return in H as (wc & _ & H).
  apply bind_Return in H as (gap & _ & H).
  apply bind_Return in H as (lo & _ & H).
  apply bind_Return in H as (hi & _ & H).
  apply bind_Return in H as (wh & _ & H).
  apply bind_Return in H as (t & Ht & H).
  apply bind_Return in H as (b & Hb & H).
  injection H as <-.
  destruct (Wall_init_same_config _ _ _ _ _ _ _ _ Ht Hb) as [Hs Hw].
  destruct (Wall_init_fresh _ _ _ _ _ Ht) as (Hpt & Hxt & _ & _ & _ & _ & Hrt & _).
  destruct (Wall_init_fresh _ _ _ _ _ Hb) as (Hpb & Hxb & _ & _ & _ & _ & Hrb & _).
  exists t, b. cbn. repeat split; congruence.
Qed.

Lemma WallPair_update_twin (p : WallPair) :
  twin_walls p -> twin_walls (WallPair_update p).
Proof.
  intros (t & b & Hw & Hx & Hs & Hrx & Hrw & Hpt & Hpb).
  exists (Wall_update t), (Wall_update b).
  unfold WallPair_update. rewrite Hw. cbn.
  rewrite Hx, Hs. repeat split; assumption.
Qed.

(** On such a pair the pass test fires exactly when the pair is not yet
    scored and its walls are behind the rectangle; it is the top wall that
    fires, the bottom wall is left alone. *)
Lemma WallPair_check_pass_twin (p : WallPair) (r : Rect) :
  twin_walls p ->
  twin_walls (fst (WallPair_check_pass p r))
  /\ snd (WallPair_check_pass p r)
     = negb (scored p) && existsb (is_behind r) (walls p).
Proof.
  intros (t & b & Hw & Hx & Hs & Hrx & Hrw & Hpt & Hpb).
  unfold WallPair_check_pass.
  destruct (scored p) eqn:Hsc.
  - split; [|reflexivity]. exists t, b. cbn [fst].
    repeat split; try assumption. congruence.
  - rewrite Hw. cbn [check_pass_loop]. rewrite Hpt, Hpb.
    rewrite (Wall_check_pass_fresh t r Hpt), (Wall_check_pass_fresh b r Hpb).
    assert (Hb : is_behind r b = is_behind r t).
    { unfold is_behind, right. now rewrite Hrx, Hrw. }
    cbn [existsb negb andb]. rewrite Hb, orb_false_r, orb_diag.
    destruct (is_behind r t); cbn [fst snd].
    + split; [|reflexivity]. exists (mark_passed t), b.
      cbn. repeat split; assumption.
    + split; [|reflexivity]. exists t, b.
      cbn. rewrite Hsc. repeat split; assumption.
Qed.

Lemma WallPair_frames_twin (rects : list Rect) (p : WallPair) :
  twin_walls p -> twin_walls (fst (WallPair_frames p rects)).
Proof.
  revert p. induction rects as [|r rects IH]; intros p H; [exact H|].
  cbn [WallPair_frames].
  destruct (WallPair_check_pass_twin (WallPair_update p) r
              (WallPair_update_twin p H)) as [H1 _].
  destruct (WallPair_check_pass (WallPair_update p) r) as [p1 fired].
  specialize (IH p1 H1).
  destruct (WallPair_frames p1 rects) as [p2 results]. exact IH.
Qed.

(** X11.  In the game the bottom wall of a pair never fires: its flag is
    still clear however long the pair has lived, and the top wall's flag is
    the pair's. *)
Lemma bottom_wall_never_fires (x : Q) (h : Z) (cfg : Config) (entropy : Z)
  (p : WallPair) (rects : list Rect) :
  WallPair_init x h cfg entropy = Return p ->
  passed <$> bottom_wall (fst (WallPair_frames p rects)) = Some false
  /\ passed <$> top_wall (fst (WallPair_frames p rects))
     = Some (scored (fst (WallPair_frames p rects))).
Proof.
  intros H. apply WallPair_init_twin in H.
  destruct (WallPair_frames_twin rects p H)
    as (t & b & Hw & _ & _ & _ & _ & Hpt & Hpb).
  unfold bottom_wall, top_wall. rewrite Hw. cbn. now rewrite Hpt, Hpb.
Qed.

Example bottom_wall_of_a_passed_pair :
  scored pair_about_to_leave = true
  /\ (passed <$> walls pair_about_to_leave) = [true; false].
Proof. vm_compute. split; reflexivity. Qed.

(** ** Game: the loop over the wall pairs *)

(** The loop in closed form.  The status only ever moves to [InMenu]; the
    score and the surviving pairs do not depend on it. *)
Lemma update_walls_spec (r : Rect) (ps : list WallPair) (st : status) (sc : Z) :
  update_walls r ps st sc
  = (if existsb (hits r) ps then InMenu else st,
     sc + count_fired r ps,
     List.filter on_screen (after_tick r <$> ps)).
Proof.
  revert st sc. induction ps as [|p ps IH]; intros st sc.
  - simpl. unfold count_fired. simpl. now rewrite Z.add_0_r.
  - cbn [update_walls].
    rewrite (surjective_pairing (WallPair_check_pass (WallPair_update p) r)).
    fold (after_tick r p) (fires r p) (hits r p).
    rewrite IH. unfold count_fired.
    cbn [List.filter existsb fmap list_fmap].
    assert (Ho : on_screen (after_tick r p)
                 = negb (WallPair_is_offscreen (after_tick r p)))
      by reflexivity.
    rewrite Ho.
    destruct (hits r p), (existsb (hits r) ps), (fires r p),
             (WallPair_is_offscreen (after_tick r p));
      cbn [orb negb length]; f_equal; f_equal; lia.
Qed.

Lemma after_tick_flag (r : Rect) (p : WallPair) :
  scored (after_tick r p) = scored p || fires r p
  /\ (fires r p = true -> scored p = false).
Proof.
  unfold after_tick, fires.
  destruct (WallPair_check_pass_flag (WallPair_update p) r) as [H1 H2].
  now rewrite WallPair_update_scored in *.
Qed.

(** Each pair that fires leaves the unscored ones. *)
Lemma unscored_after_tick (r : Rect) (ps : list WallPair) :
  unscored (after_tick r <$> ps) + count_fired r ps = unscored ps.
Proof.
  unfold unscored, count_fired.
  induction ps as [|p ps IH]; [reflexivity|].
  cbn [fmap list_fmap List.filter].
  destruct (after_tick_flag r p) as [H1 H2]. rewrite H1.
  destruct (fires r p) eqn:Ef.
  - rewrite (H2 eq_refl). cbn [orb negb length]. lia.
  - rewrite orb_false_r. destruct (scored p); cbn [negb length]; lia.
Qed.

Lemma unscored_filter (f : WallPair -> bool) (ps : list WallPair) :
  unscored (List.filter f ps) <= unscored ps.
Proof.
  unfold unscored. induction ps as [|p ps IH]; [reflexivity|].
  cbn [List.filter]. destruct (f p), (negb (scored p)) eqn:E;
    cbn [List.filter length]; rewrite ?E; cbn [length]; lia.
Qed.

Lemma unscored_app (ps qs : list WallPair) :
  unscored (ps ++ qs) = unscored ps + unscored qs.
Proof. unfold unscored. rewrite List.filter_app, length_app. lia. Qed.

Lemma count_fired_nonneg (r : Rect) (ps : list WallPair) :
  0 <= count_fired r ps.
Proof. unfold count_fired. lia. Qed.

(** ** Game: one tick in closed form *)

Lemma update_game_logic_menu (g : Game) :
  game_status g = InMenu -> update_game_logic g = g.
Proof. intros H. unfold update_game_logic. now rewrite H. Qed.

Lemma update_game_logic_game (g : Game) :
  game_status g = InGame ->
  update_game_logic g
  = mkGame (config g) (width g) (height g) (fps g) (spawn_interval g)
           (ticked_bird g)
           (List.filter on_screen
              (after_tick (bird_rect (ticked_bird g)) <$> wall_pairs g))
           (if is_bottom (touched g)
               || existsb (hits (bird_rect (ticked_bird g))) (wall_pairs g)
            then InMenu else InGame)
           (score g + count_fired (bird_rect (ticked_bird g)) (wall_pairs g))
           (running g).
Proof.
  intros H. unfold update_game_logic, ticked_bird, touched. rewrite H.
  destruct (check_bounds (Bird_update (bird g)) (height g)) as [b t].
  rewrite update_walls_spec. cbn [fst snd].
  destruct t as [[|]|]; cbn [is_bottom orb];
    destruct (existsb (hits (bird_rect b)) (wall_pairs g)); reflexivity.
Qed.

Lemma update_game_logic_score (g : Game) :
  score (update_game_logic g) = score g + passes_in_tick g.
Proof.
  unfold passes_in_tick. destruct (game_status g) eqn:H.
  - now rewrite update_game_logic_game.
  - rewrite update_game_logic_menu by exact H. lia.
Qed.

(** A tick never lowers the score, and never raises the sum of the score
    and the number of unscored live pairs. *)
Lemma update_game_logic_potential (g : Game) :
  score g <= score (update_game_logic g)
  /\ score (update_game_logic g) + unscored (wall_pairs (update_game_logic g))
     <= score g + unscored (wall_pairs g).
Proof.
  destruct (game_status g) eqn:H.
  - rewrite update_game_logic_game by exact H. cbn [score wall_pairs].
    pose proof (count_fired_nonneg (bird_rect (ticked_bird g)) (wall_pairs g)).
    pose proof (unscored_after_tick (bird_rect (ticked_bird g)) (wall_pairs g)).
    pose proof (unscored_filter on_screen
                  (after_tick (bird_rect (ticked_bird g)) <$> wall_pairs g)).
    lia.
  - rewrite update_game_logic_menu by exact H. lia.
Qed.

Lemma iter_update_game_logic_potential (n : nat) (g : Game) :
  score g <= score (Nat.iter n update_game_logic g)
  /\ score (Nat.iter n update_game_logic g)
     <= score g + unscored (wall_pairs g).
Proof.
  assert (H : score g <= score (Nat.iter n update_game_logic g)
              /\ score (Nat.iter n update_game_logic g)
                 + unscored (wall_pairs (Nat.iter n update_game_logic g))
                 <= score g + unscored (wall_pairs g)).
  { induction n as [|n IH]; [simpl; lia|].
    change (Nat.iter (S n) update_game_logic g)
      with (update_game_logic (Nat.iter n update_game_logic g)).
    pose proof (update_game_logic_potential (Nat.iter n update_game_logic g)).
    lia. }
  assert (0 <= unscored (wall_pairs (Nat.iter n update_game_logic g)))
    by (unfold unscored; lia).
  lia.
Qed.

Lemma update_game_logic_config (g : Game) :
  config (update_game_logic g) = config g
  /\ height (update_game_logic g) = height g.
Proof.
  destruct (game_status g) eqn:H.
  - now rewrite update_game_logic_game.
  - now rewrite update_game_logic_menu.
Qed.

(** ** Game: events and runs *)

Lemma Game_init_within (fs : disk) (g : Game) :
  Game_init fs = Return g -> within 0 g.
Proof.
  unfold Game_init. intros H. peel_binds H.
  injection H as <-. unfold within, unscored. cbn. lia.
Qed.

Lemma handle_event_within (k : Z) (g g' : Game) (e : event) :
  within k g -> handle_event g e = Return g' -> within (k + is_spawn e) g'.
Proof.
  unfold within. intros [H0 Hk] H.
  assert (Hu : 0 <= unscored (wall_pairs g)) by (unfold unscored; lia).
  unfold handle_event in H.
  destruct e as [|[|]|entropy|]; cbn [is_spawn] in *.
  - cbn in H. injection H as <-. cbn. lia.
  - destruct (game_status g) eqn:Hs.
    + cbn in H. injection H as <-. cbn. lia.
    + apply bind_Return in H as (g2 & Hr & H).
      apply restart_game_Return in Hr as (b & _ & ->).
      cbn in H. injection H as <-. cbn. unfold unscored. cbn. lia.
  - cbn in H. injection H as <-. lia.
  - cbn in H. destruct (game_status g) eqn:Hs.
    + apply bind_Return in H as (p & Hp & H).
      apply WallPair_init_scored in Hp.
      injection H as <-. cbn [score wall_pairs set_wall_pairs].
      rewrite unscored_app. unfold unscored at 2. cbn. rewrite Hp. cbn. lia.
    + injection H as <-. lia.
  - cbn in H. injection H as <-. lia.
Qed.

Lemma spawned_nonneg (evs : list event) : 0 <= spawned evs.
Proof.
  induction evs as [|e evs IH]; [simpl; lia|].
  simpl. destruct e; cbn [is_spawn]; lia.
Qed.

Lemma handle_events_within (evs : list event) (k : Z) (g g' : Game) :
  within k g -> handle_events evs g = Return g' -> within (k + spawned evs) g'.
Proof.
  revert k g. induction evs as [|e evs IH]; intros k g Hw H.
  - simpl in *. injection H as <-. now rewrite Z.add_0_r.
  - cbn [handle_events] in H. apply bind_Return in H as (g1 & H1 & H).
    apply (handle_event_within k) in H1; [|exact Hw].
    apply (IH _ _ H1) in H. simpl. now replace (k + (is_spawn e + spawned evs))
      with (k + is_spawn e + spawned evs) by lia.
Qed.

Lemma update_game_logic_within (k : Z) (g : Game) :
  within k g -> within k (update_game_logic g).
Proof.
  unfold within. pose proof (update_game_logic_potential g). lia.
Qed.

Lemma within_weaken (k k' : Z) (g : Game) : k <= k' -> within k g -> within k' g.
Proof. unfold within. lia. Qed.

Lemma run_within (frames : list (list event)) (k : Z) (g g' : Game) :
  within k g -> run frames g = Return g' ->
  within (k + spawned (concat frames)) g'.
Proof.
  revert k g. induction frames as [|evs frames IH]; intros k g Hw H.
  - simpl in *. injection H as <-. now rewrite Z.add_0_r.
  - cbn [run] in H. cbn [concat].
    assert (Hsp : spawned (evs ++ concat frames)
                  = spawned evs + spawned (concat frames)).
    { clear. induction evs as [|e evs IHe]; [reflexivity|].
      simpl. rewrite IHe. lia. }
    rewrite Hsp.
    destruct (running g).
    + apply bind_Return in H as (g1 & H1 & H).
      apply (handle_events_within _ k) in H1; [|exact Hw].
      apply update_game_logic_within in H1.
      apply (IH _ _ H1) in H.
      now replace (k + (spawned evs + spawned (concat frames)))
        with (k + spawned evs + spawned (concat frames)) by lia.
    + injection H as <-.
      pose proof (spawned_nonneg evs). pose proof (spawned_nonneg (concat frames)).
      apply (within_weaken k); [lia | exact Hw].
Qed.

Lemma handle_event_config (g g' : Game) (e : event) :
  handle_event g e = Return g' -> config g' = config g /\ height g' = height g.
Proof.
  unfold handle_event. intros H.
  destruct e as [|[|]|entropy|].
  - cbn in H. now injection H as <-.
  - destruct (game_status g) eqn:Hs.
    + cbn in H. now injection H as <-.
    + apply bind_Return in H as (g2 & Hr & H).
      apply restart_game_Return in Hr as (b & _ & ->).
      cbn in H. now injection H as <-.
  - cbn in H. now injection H as <-.
  - cbn in H. destruct (game_status g).
    + apply bind_Return in H as (p & _ & H). now injection H as <-.
    + now injection H as <-.
  - cbn in H. now injection H as <-.
Qed.

Lemma handle_events_reachable (evs : list event) (g g' : Game) :
  reachable g -> handle_events evs g = Return g' -> reachable g'.
Proof.
  revert g. induction evs as [|e evs IH]; intros g Hr H.
  - simpl in H. now injection H as <-.
  - cbn [handle_events] in H. apply bind_Return in H as (g1 & H1 & H).
    apply (IH g1); [|exact H]. exact (reach_event g g1 e Hr H1).
Qed.

Lemma run_reachable (frames : list (list event)) (g g' : Game) :
  reachable g -> run frames g = Return g' -> reachable g'.
Proof.
  revert g. induction frames as [|evs frames IH]; intros g Hr H.
  - simpl in H. now injection H as <-.
  - cbn [run] in H. destruct (running g).
    + apply bind_Return in H as (g1 & H1 & H).
      apply (IH (update_game_logic g1)); [|exact H].
      apply reach_tick. exact (handle_events_reachable evs g g1 Hr H1).
    + now injection H as <-.
Qed.

Lemma reachable_restartable (g : Game) : reachable g -> restartable g.
Proof.
  induction 1 as [fs g H | g g' e _ IH H | g _ IH].
  - unfold Game_init in H.
    apply bind_Return in H as (cfg & _ & H).
    apply bind_Return in H as (gs & _ & H).
    apply bind_Return in H as (w & _ & H).
    apply bind_Return in H as (h & _ & H).
    apply bind_Return in H as (f & _ & H).
    apply bind_Return in H as (b & Hb & H).
    apply bind_Return in H as (wc & _ & H).
    apply bind_Return in H as (si & _ & H).
    injection H as <-. now exists b.
  - destruct (handle_event_config g g' e H) as [Hc Hh].
    unfold restartable. now rewrite Hc, Hh.
  - destruct (update_game_logic_config g) as [Hc Hh].
    unfold restartable. now rewrite Hc, Hh.
Qed.

Lemma game_over_reachable : reachable game_over.
Proof.
  apply reach_tick.
  apply (run_reachable (idle_frames 31) default_game).
  - apply (reach_init no_file). reflexivity.
  - vm_compute. reflexivity.
Qed.

(** * The claims *)

(** ** C1: a tick is not cut short *)

(** C1 (as the code behaves): a tick of an Active game always runs to its
    end.  Whether or not the bounds check reported the floor, and whether or
    not an earlier pair collided, every live pair is ticked and pass-tested,
    each pass that fires adds 1 to the score, and every pair that is then
    off screen is removed; the transition only changes the status.  A tick
    of an Ended game changes nothing. *)
Theorem tick_runs_to_completion (g : Game) :
  update_game_logic g
  = match game_status g with
    | InMenu => g
    | InGame =>
        mkGame (config g) (width g) (height g) (fps g) (spawn_interval g)
          (ticked_bird g)
          (List.filter on_screen
             (after_tick (bird_rect (ticked_bird g)) <$> wall_pairs g))
          (if is_bottom (touched g)
              || existsb (hits (bird_rect (ticked_bird g))) (wall_pairs g)
           then InMenu else InGame)
          (score g + count_fired (bird_rect (ticked_bird g)) (wall_pairs g))
          (running g)
    end
  /\ (forall r ps st sc,
        update_walls r ps st sc
        = (if existsb (hits r) ps then InMenu else st,
           sc + count_fired r ps,
           List.filter on_screen (after_tick r <$> ps)))
  /\ (forall r p,
        after_tick r p = fst (WallPair_check_pass (WallPair_update p) r)
        /\ fires r p = snd (WallPair_check_pass (WallPair_update p) r)
        /\ hits r p = check_collisions (WallPair_update p) r).
Proof.
  split; [|split].
  - destruct (game_status g) eqn:H.
    + now apply update_game_logic_game.
    + now apply update_game_logic_menu.
  - intros r ps st sc. apply update_walls_spec.
  - intros r p. repeat split.
Qed.

(** C1, refuted as stated, on games played from the start.  (1) Without
    a configuration file and without input the avatar reaches the floor in
    tick 33; the pair spawned in frame 1 is still moved in that tick, from
    536 to 534.  (2) With whole-number physics, a game in which the tick that
    reaches the floor still scores the pair passed in it, (3) one in which
    that tick still removes the pair that left the screen, and (4) one in
    which the first pair collides and the second is still moved. *)
Lemma tick_continues_after_game_over :
  (Game_init no_file ≫= run (idle_frames 31) = Return game_before_floor
   /\ game_status game_before_floor = InGame
   /\ touched game_before_floor = Some TouchedBottom
   /\ game_status (update_game_logic game_before_floor) = InMenu
   /\ lefts game_before_floor = [[536; 536]]
   /\ lefts (update_game_logic game_before_floor) = [[534; 534]])
  /\ (returns (Game_init integer_physics_file
                ≫= run (frames_of (hover 382) spawns_from_86 400)) = true
      /\ game_status floor_and_pass = InGame
      /\ touched floor_and_pass = Some TouchedBottom
      /\ game_status (update_game_logic floor_and_pass) = InMenu
      /\ score floor_and_pass = 0
      /\ score (update_game_logic floor_and_pass) = 1
      /\ lefts floor_and_pass = [[-30; -30]; [142; 142]; [314; 314]; [486; 486]]
      /\ lefts (update_game_logic floor_and_pass)
         = [[-32; -32]; [140; 140]; [312; 312]; [484; 484]])
  /\ (returns (Game_init integer_physics_file
                ≫= run (frames_of (hover 420) spawns_from_89 438)) = true
      /\ game_status floor_and_leave = InGame
      /\ touched floor_and_leave = Some TouchedBottom
      /\ game_status (update_game_logic floor_and_leave) = InMenu
      /\ lefts floor_and_leave
         = [[-100; -100]; [78; 78]; [256; 256]; [434; 434]]
      /\ lefts (update_game_logic floor_and_leave)
         = [[76; 76]; [254; 254]; [432; 432]])
  /\ (returns (Game_init integer_physics_file
                ≫= run (frames_of (hover 420) spawns_low_gap 323)) = true
      /\ game_status crash = InGame
      /\ touched crash = None
      /\ (hits (bird_rect (ticked_bird crash)) <$> wall_pairs crash)
         = [true; false]
      /\ game_status (update_game_logic crash) = InMenu
      /\ lefts crash = [[130; 130]; [308; 308]]
      /\ lefts (update_game_logic crash) = [[128; 128]; [306; 306]]).
Proof. vm_compute. repeat split. Qed.

(** ** C2: what a new pair draws at random *)

(** C2 (as the code behaves): a new pair draws [wall_height], the bottom
    edge of its top wall, in [min_height, max_height]; [gap_height] is the
    configured constant (default 200), the same whatever is drawn; the
    bottom wall is anchored at [wall_height + gap_height], its rectangle at
    that sum rounded to a pixel, so that, for a gap of a whole number of
    pixels, the top wall's bottom edge plus the gap is the bottom wall's top
    edge. *)
Theorem pair_draws_wall_height (x : Q) (h : Z) (cfg : Config) (entropy : Z)
  (p : WallPair) :
  WallPair_init x h cfg entropy = Return p ->
  min_height p <= wall_height p <= max_height p
  /\ (exists wall_config,
        Config_get cfg "wall_settings" = Return wall_config
        /\ py_get wall_config "gap_height" (JInt 200) ≫= as_num
           = Return (gap_height p)
        /\ randint (min_height p) (max_height p) entropy
           = Return (wall_height p))
  /\ (forall entropy' p',
        WallPair_init x h cfg entropy' = Return p' ->
        gap_height p' = gap_height p)
  /\ scored p = false
  /\ exists t b,
       walls p = [t; b]
       /\ (flip t, flip b) = (true, false)
       /\ (passed t, passed b) = (false, false)
       /\ (left (wall_rect t), left (wall_rect b)) = (to_int x, to_int x)
       /\ bottom (wall_rect t) = wall_height p
       /\ wall_y b = py_add (wall_y t) (gap_height p)
       /\ top (wall_rect b)
          = to_int (py_add (inject_Z (wall_height p)) (gap_height p))
       /\ (forall gap, (gap_height p == inject_Z gap)%Q ->
             bottom (wall_rect t) + gap = top (wall_rect b)).
Proof.
  unfold WallPair_init. intros H.
  apply bind_Return in H as (wc & Hwc & H).
  apply bind_Return in H as (gap & Hgap & H).
  apply bind_Return in H as (lo & Hlo & H).
  apply bind_Return in H as (hi & Hhi & H).
  apply bind_Return in H as (wh & Hwh & H).
  apply bind_Return in H as (t & Ht & H).
  apply bind_Return in H as (b & Hb & H).
  injection H as <-. cbn [min_height max_height wall_height gap_height
                          scored walls].
  destruct (Wall_init_fresh _ _ _ _ _ Ht)
    as (Hpt & Hxt & Hyt & Hft & _ & _ & Hrxt & Hryt).
  destruct (Wall_init_fresh _ _ _ _ _ Hb)
    as (Hpb & Hxb & Hyb & Hfb & _ & _ & Hrxb & Hryb).
  rewrite to_int_inject_Z in Hryt.
  split; [exact (randint_range _ _ _ _ Hwh)|]. split.
  { exists wc. repeat split; assumption. }
  split.
  { intros entropy' p' H'. rewrite Hwc in H'. cbn [mbind result_bind] in H'.
    rewrite Hgap in H'. cbn [mbind result_bind] in H'.
    peel_binds H'. now injection H' as <-. }
  split; [reflexivity|].
  exists t, b. split; [reflexivity|].
  split; [now rewrite Hft, Hfb|]. split; [now rewrite Hpt, Hpb|].
  split; [unfold left; now rewrite Hrxt, Hrxb|].
  split; [unfold bottom; lia|]. split; [now rewrite Hyt, Hyb|].
  split; [exact Hryb|].
  intros gz Hgz. unfold bottom, top. rewrite Hryt, Hryb.
  rewrite (py_add_compat _ (inject_Z wh) _ (inject_Z gz)), py_add_inject_Z,
    to_int_inject_Z; [lia | reflexivity | exact Hgz].
Qed.

Lemma pair_draws_wall_height_witness :
  min_height pair_150 <= wall_height pair_150 <= max_height pair_150.
Proof.
  apply (pair_draws_wall_height 600 500 empty_config 50 pair_150).
  vm_compute. reflexivity.
Defined.

(** With a gap of 200.5 and a draw of 150 the bottom wall is anchored at
    350.5: its rectangle starts at pixel 351. *)
Example fractional_gap :
  (fun p => (wall_height p, wall_y <$> bottom_wall p,
             top <$> (wall_rect <$> bottom_wall p)))
  <$> WallPair_init 600 500 fractional_gap_config 50
  = Return (150, Some (701 # 2)%Q, Some 351).
Proof. vm_compute. reflexivity. Qed.

(** C2, refuted as stated: [gap_height] is read from the configuration, not
    drawn, and nothing keeps it between [min_height] and [max_height].  With
    a configured gap of 50 every pair has a gap of 50, below the minimum of
    100; and whatever the generator yields, the gap of a pair is the same
    while its [wall_height] changes. *)
Lemma gap_height_is_configured_not_drawn :
  Config_init narrow_gap_file "bird_config.json" = Return narrow_gap_config
  /\ returns (WallPair_init 600 500 narrow_gap_config 7) = true
  /\ gap_height (pair_of narrow_gap_config 7) = 50%Q
  /\ (min_height (pair_of narrow_gap_config 7),
      max_height (pair_of narrow_gap_config 7)) = (100, 400)
  /\ ~ (inject_Z (min_height (pair_of narrow_gap_config 7))
        <= gap_height (pair_of narrow_gap_config 7))%Q
  /\ (gap_height <$> (pair_of empty_config <$> [0; 1; 150; 300; 301]))
     = [200; 200; 200; 200; 200]%Q
  /\ (wall_height <$> (pair_of empty_config <$> [0; 1; 150; 300; 301]))
     = [100; 101; 250; 400; 100].
Proof. vm_compute. repeat split. intros H. apply H. reflexivity. Qed.

(** ** C3: velocity, gravity and the bounds check *)

(** C3 (as the code behaves): every gravity tick adds the gravity to the
    velocity, in Python's arithmetic, so with a gravity that is not negative
    the velocity (a [float], or an [int] below [2 ^ 53]) never decreases
    over gravity ticks; the bounds check resets the velocity to 0 when it
    reports TouchedTop, and only then: on TouchedBottom it clamps [y] to the
    screen height less the avatar's and leaves the velocity as it is. *)
Theorem velocity_reset_only_at_top (b : Bird) (h : Z) (n : nat) :
  (0 <= gravity b)%Q -> representable (speed_y b) ->
  speed_y (Bird_update b) = py_add (speed_y b) (gravity b)
  /\ (speed_y b <= speed_y (Bird_update b))%Q
  /\ (speed_y (Nat.iter n Bird_update b)
      <= speed_y (Nat.iter (S n) Bird_update b))%Q
  /\ match snd (check_bounds b h) with
     | Some TouchedTop =>
         speed_y (fst (check_bounds b h)) = 0%Q
         /\ bird_y (fst (check_bounds b h)) = 0%Q
     | Some TouchedBottom =>
         speed_y (fst (check_bounds b h)) = speed_y b
         /\ bird_y (fst (check_bounds b h)) = inject_Z (h - rh (bird_rect b))
         /\ bottom (bird_rect (fst (check_bounds b h))) = h
     | None => fst (check_bounds b h) = b
     end
  /\ (forall g,
        speed_y (ticked_bird g)
        = match touched g with
          | Some TouchedTop => 0%Q
          | _ => py_add (speed_y (bird g)) (gravity (bird g))
          end).
Proof.
  intros Hg Hs. split; [reflexivity|]. split.
  { rewrite Bird_update_speed. apply py_add_le; [now left | exact Hg]. }
  split; [now apply iter_update_speed_le|]. split.
  - pose proof (check_bounds_cases b h) as H.
    destruct (snd (check_bounds b h)) as [[|]|]; tauto.
  - intros g. unfold ticked_bird, touched.
    pose proof (check_bounds_cases (Bird_update (bird g)) (height g)) as H.
    destruct (snd (check_bounds (Bird_update (bird g)) (height g)))
      as [[|]|].
    + tauto.
    + destruct H as (_ & _ & -> & _). reflexivity.
    + destruct H as (_ & _ & ->). reflexivity.
Qed.

Lemma velocity_reset_only_at_top_witness :
  speed_y (Bird_update default_bird)
  = py_add (speed_y default_bird) (gravity default_bird)
  /\ (speed_y default_bird <= speed_y (Bird_update default_bird))%Q.
Proof.
  destruct (velocity_reset_only_at_top default_bird 500 1) as (H1 & H2 & _).
  - vm_compute. discriminate.
  - exists 0, 0. vm_compute. repeat split; discriminate.
  - split; [exact H1 | exact H2].
Defined.

(** C3, refuted as stated: played from the default start without input,
    the avatar reaches the floor in tick 33; the bounds check reports
    TouchedBottom and clamps [y] to 465, and the velocity is still the
    13.200000000000006 that 33 additions of 0.4 have made it. *)
Lemma velocity_kept_at_bottom :
  Game_init no_file = Return default_game
  /\ run (idle_frames 31) default_game = Return game_before_floor
  /\ touched game_before_floor = Some TouchedBottom
  /\ bird_y (ticked_bird game_before_floor) = 465%Q
  /\ speed_y (ticked_bird game_before_floor)
     = (3715469692580661 # 281474976710656)%Q
  /\ (speed_y (ticked_bird game_before_floor)
      == Q_of_float 0x1.a66666666666ap+3)%Q
  /\ ~ (speed_y (ticked_bird game_before_floor) == 0)%Q
  /\ game_status (update_game_logic game_before_floor) = InMenu.
Proof. vm_compute. repeat split; discriminate. Qed.

(** ** C4: loading the configuration *)

(** C4 (as the code behaves): when the configuration file is absent,
    [load_config] falls back to the empty dict; every lookup, in every
    group, then returns the default written at the call; the game and
    everything it builds later start from those defaults.  A failure other
    than the missing file is not recovered. *)
Theorem missing_file_gives_defaults (fs : disk) :
  fs "bird_config.json" = Raise FileNotFoundError ->
  load_config fs "bird_config.json" = Return (JDict ∅)
  /\ Config_init fs "bird_config.json" = Return empty_config
  /\ (forall group key dflt,
        Config_get empty_config group ≫= (fun s => py_get s key dflt)
        = Return dflt)
  /\ Game_init fs = Return default_game
  /\ restart_game default_game = Return default_game
  /\ (forall x h entropy,
        exists t b,
          WallPair_init x h empty_config entropy
          = Return (mkWallPair 200 100 400 (100 + entropy mod 301) h [t; b]
                      false)
          /\ wall_speed t = 2%Q /\ wall_speed b = 2%Q
          /\ (rw (wall_rect t), rh (wall_rect t)) = (100, 500)
          /\ (rw (wall_rect b), rh (wall_rect b)) = (100, 500))
  /\ (forall e, e <> FileNotFoundError ->
        forall fs', fs' "bird_config.json" = Raise e ->
          load_config fs' "bird_config.json" = Raise e
          /\ Game_init fs' = Raise e).
Proof.
  intros H.
  assert (Hl : load_config fs "bird_config.json" = Return (JDict ∅)).
  { unfold load_config. now rewrite H. }
  assert (Hc : Config_init fs "bird_config.json" = Return empty_config).
  { unfold Config_init. now rewrite Hl. }
  split; [exact Hl|]. split; [exact Hc|]. split.
  { intros group key dflt. rewrite Config_get_empty.
    cbn [mbind result_bind]. apply py_get_empty. }
  split.
  { unfold Game_init. rewrite Hc. reflexivity. }
  split; [reflexivity|]. split.
  - intros x h entropy. eexists _, _.
    split; [apply WallPair_init_default|]. repeat split.
  - intros e Hne fs' H'. now apply other_failures_propagate.
Qed.

Lemma missing_file_gives_defaults_witness :
  Game_init no_file = Return default_game.
Proof.
  destruct (missing_file_gives_defaults no_file) as (_ & _ & _ & H & _).
  - reflexivity.
  - exact H.
Defined.

(** C4, refuted as stated: a malformed file is not recovered.  The decoding
    error leaves [load_config] and the program aborts in [Game.__init__];
    so does a file that cannot be read, and a file that decodes to something
    other than a dict fails at the first lookup. *)
Lemma malformed_config_aborts :
  load_config malformed_file "bird_config.json" = Raise JSONDecodeError
  /\ Game_init malformed_file = Raise JSONDecodeError
  /\ Game_init unreadable_file = Raise PermissionError
  /\ load_config list_file "bird_config.json" = Return (JList [])
  /\ Game_init list_file = Raise AttributeError.
Proof. repeat split. Qed.

(** ** C5: one point per pair *)

(** C5: over any number of frames and whatever the avatar's rectangle is
    in each, the pass test of a pair returns true at most once, although the
    walls of a pair built by the constructor are behind the avatar together:
    the test fires exactly when the pair is not yet scored and its walls are
    behind.  A tick adds to the score exactly the number of pairs whose pass
    test fires in it; however many ticks follow, the score gained never
    exceeds the number of live pairs not yet scored; and in a whole run from
    the start the score never exceeds the number of pairs spawned. *)
Theorem one_point_per_pair (fs : disk) (frames : list (list event))
  (g0 g : Game) :
  Game_init fs = Return g0 -> run frames g0 = Return g ->
  (forall p rects, (count_true (snd (WallPair_frames p rects)) <= 1)%nat)
  /\ (forall p r, scored p = true -> WallPair_check_pass p r = (p, false))
  /\ (forall p r, snd (WallPair_check_pass p r) = true ->
                  scored p = false
                  /\ scored (fst (WallPair_check_pass p r)) = true)
  /\ (forall x h cfg entropy p rects r,
        WallPair_init x h cfg entropy = Return p ->
        snd (WallPair_check_pass (fst (WallPair_frames p rects)) r)
        = negb (scored (fst (WallPair_frames p rects)))
          && existsb (is_behind r) (walls (fst (WallPair_frames p rects))))
  /\ (forall g1, score (update_game_logic g1) = score g1 + passes_in_tick g1)
  /\ (forall n g1,
        score g1 <= score (Nat.iter n update_game_logic g1)
        /\ score (Nat.iter n update_game_logic g1)
           <= score g1 + unscored (wall_pairs g1))
  /\ 0 <= score g <= spawned (concat frames).
Proof.
  intros Hinit Hrun.
  split; [apply WallPair_frames_at_most_once|].
  split; [apply WallPair_check_pass_scored|].
  split.
  { intros p r H. destruct (WallPair_check_pass_flag p r) as [Hf Hs].
    split; [now apply Hs|]. rewrite Hf, H. apply orb_true_r. }
  split.
  { intros x h cfg entropy p rects r H.
    apply WallPair_check_pass_twin, WallPair_frames_twin.
    exact (WallPair_init_twin x h cfg entropy p H). }
  split; [apply update_game_logic_score|].
  split; [apply iter_update_game_logic_potential|].
  apply Game_init_within in Hinit.
  apply (run_within frames 0 g0 g Hinit) in Hrun.
  destruct Hrun as [H0 Hk].
  assert (0 <= unscored (wall_pairs g)) by (unfold unscored; lia). lia.
Qed.

Lemma one_point_per_pair_witness :
  0 <= score game_before_floor <= spawned (concat (idle_frames 31)).
Proof.
  apply (one_point_per_pair no_file (idle_frames 31) default_game
           game_before_floor); vm_compute; reflexivity.
Defined.

(** A pair that is passed: its test fires once, in frame 316, and the tick
    it fires in scores one point. *)
Example pair_150_scored_once :
  count_true (snd (WallPair_frames pair_150 (replicate 350 start_rect)))
  = 1%nat
  /\ nth_error (snd (WallPair_frames pair_150 (replicate 350 start_rect))) 315
     = Some true
  /\ passes_in_tick (set_wall_pairs default_game [pair_about_to_pass]) = 1.
Proof. vm_compute. repeat split. Qed.

(** A thousand frames of hovering: eleven pairs were spawned, seven have
    been passed and have left, each for one point; the four on screen are
    not yet passed. *)
Example long_game_score :
  returns (Game_init integer_physics_file
           ≫= run (frames_of (hover 1000) spawns_every_89 1000)) = true
  /\ spawned (concat (frames_of (hover 1000) spawns_every_89 1000)) = 11
  /\ game_status long_game = InGame
  /\ score long_game = 7
  /\ (scored <$> wall_pairs long_game) = [false; false; false; false]
  /\ lefts long_game = [[22; 22]; [200; 200]; [378; 378]; [556; 556]].
Proof. vm_compute. repeat split. Qed.

(** ** C6: the pass test of a wall *)

(** C6 (as the code behaves): over any sequence of calls, [check_pass]
    returns true at most once: at the first call that finds the flag clear
    and the wall's right edge strictly left of the rectangle's left edge, if
    there is such a call, and never otherwise.  Firing sets the flag, the
    flag never reverts, and with the flag set every call returns false. *)
Theorem check_pass_fires_at_most_once (w : Wall) (cs : list wall_call) :
  snd (Wall_calls w cs)
  = (if passed w then (fun _ => false) <$> behind w cs
     else once (behind w cs))
  /\ count_true (snd (Wall_calls w cs))
     = (if negb (passed w) && existsb id (behind w cs) then 1 else 0)%nat
  /\ passed (fst (Wall_calls w cs)) = passed w || existsb id (behind w cs)
  /\ (forall r,
        Wall_check_pass w r
        = if negb (passed w) && is_behind r w
          then (mark_passed w, true) else (w, false)).
Proof.
  destruct (passed w) eqn:Hp.
  - destruct (Wall_calls_passed w cs Hp) as [H1 H2].
    rewrite H1, H2, count_true_all_false. repeat split.
    intros r. now rewrite Wall_check_pass_passed.
  - destruct (Wall_calls_fresh w cs Hp) as [H1 H2].
    rewrite H1, H2, count_true_once. repeat split.
    intros r. now rewrite Wall_check_pass_fresh.
Qed.

(** C6, refuted as stated: a wall that the avatar never gets past (here a
    wall followed for the 33 frames a game without input lasts) returns
    true zero times, not once. *)
Lemma check_pass_never_fired :
  Wall_init 600 300 empty_config false = Return wall_at_600
  /\ count_true
       (snd (Wall_calls wall_at_600
               (frames_against (bird_rect default_bird) 33))) = 0%nat
  /\ count_true
       (snd (Wall_calls wall_at_600
               (frames_against (bird_rect default_bird) 33))) <> 1%nat.
Proof. vm_compute. repeat split. discriminate. Qed.

(** ** C7: restart *)

(** C7: in any game the program can reach, a restart intent (the space key)
    received while Ended returns a game with score 0, no wall pairs, status
    Active and a new avatar at the configured start_x/start_y (defaults 100
    and half the window height) with velocity 0, its rectangle centred
    there. *)
Theorem restart_resets (g : Game) :
  reachable g -> game_status g = InMenu ->
  exists b,
    handle_event g (KEYDOWN K_SPACE)
    = Return (mkGame (config g) (width g) (height g) (fps g)
                     (spawn_interval g) b [] InGame 0 (running g))
    /\ restart_game g = handle_event g (KEYDOWN K_SPACE)
    /\ speed_y b = 0%Q
    /\ (exists bird_config,
          Config_get (config g) "bird_settings" = Return bird_config
          /\ py_get bird_config "start_x" (JInt 100) ≫= as_num
             = Return (bird_x b)
          /\ py_get bird_config "start_y" (JInt (height g / 2)) ≫= as_num
             = Return (bird_y b))
    /\ bird_rect b
       = set_center (mkRect 0 0 (bird_width b) (bird_height b))
                    (to_int (bird_x b)) (to_int (bird_y b)).
Proof.
  intros Hr Hs.
  destruct (reachable_restartable g Hr) as [b Hb]. exists b.
  assert (He : handle_event g (KEYDOWN K_SPACE)
               = Return (mkGame (config g) (width g) (height g) (fps g)
                           (spawn_interval g) b [] InGame 0 (running g))).
  { unfold handle_event. rewrite Hs. unfold restart_game. rewrite Hb.
    reflexivity. }
  split; [exact He|]. split.
  { rewrite He. unfold restart_game. now rewrite Hb. }
  destruct (start_bird_Return _ _ _ Hb) as (bc & H1 & H2 & H3 & H4).
  destruct (Bird_init_Return _ _ _ _ H4) as (_ & _ & Hv & _ & _ & Hrect).
  split; [exact Hv|]. split; [|exact Hrect].
  exists bc. repeat split; assumption.
Qed.

Lemma restart_resets_witness :
  exists b,
    handle_event game_over (KEYDOWN K_SPACE)
    = Return (mkGame (config game_over) (width game_over) (height game_over)
                     (fps game_over) (spawn_interval game_over) b [] InGame 0
                     (running game_over))
    /\ speed_y b = 0%Q.
Proof.
  destruct (restart_resets game_over) as (b & H1 & _ & H2 & _).
  - exact game_over_reachable.
  - vm_compute. reflexivity.
  - exists b. split; [exact H1 | exact H2].
Defined.

Example restart_of_game_over :
  game_status game_over = InMenu
  /\ lefts game_over = [[534; 534]]
  /\ handle_event game_over (KEYDOWN K_SPACE) = Return default_game.
Proof. vm_compute. repeat split. Qed.

(** A start position with fractions: the rectangle is centred on the
    nearest pixel, (101, 251). *)
Example fractional_start :
  bird_rect <$> Bird_init (binary64 100.7) (binary64 250.9) empty_config
  = Return (mkRect 71 234 60 35).
Proof. vm_compute. reflexivity. Qed.

(** ** C8: five gravity ticks and a jump *)

(** C8 (as the code behaves): with gravity 0.4 (the [float] nearest to it)
    and velocity 0, five gravity ticks (each one [speed_y += gravity] then
    [y += speed_y]) leave the velocity at exactly 2, whatever [y] is; [y]
    is then larger by 6 up to the rounding of the five additions: by
    exactly 6 from the default start 250, and by 6 to within 10^-12
    anywhere between -1000 and 1000.  A jump sets the velocity to the
    configured impulse (-6 by default) whatever it was before, and the Jump
    intent of an Active game is that jump. *)
Theorem gravity_five_ticks_and_jump (b : Bird) :
  (gravity b == binary64 0.4)%Q -> (speed_y b == 0)%Q ->
  speed_y (Nat.iter 5 Bird_update b) = 2%Q
  /\ ((bird_y b == 250)%Q -> bird_y (Nat.iter 5 Bird_update b) = 256%Q)
  /\ ((-1000 <= bird_y b <= 1000)%Q ->
      (bird_y b + 6 - (1 # 1000000000000)
       <= bird_y (Nat.iter 5 Bird_update b)
       <= bird_y b + 6 + (1 # 1000000000000))%Q)
  /\ (forall b', speed_y (Bird_update b') = py_add (speed_y b') (gravity b')
                 /\ bird_y (Bird_update b')
                    = py_add (bird_y b') (speed_y (Bird_update b')))
  /\ (forall b', speed_y (jump b') = jump_strength b'
                 /\ bird_y (jump b') = bird_y b')
  /\ (forall g, game_status g = InGame ->
                handle_event g (KEYDOWN K_SPACE)
                = Return (set_bird g (jump (bird g))))
  /\ (forall x y,
        jump_strength <$> Bird_init x y empty_config = Return (-6)%Q).
Proof.
  intros Hg Hs.
  destruct (iter_update_fall 0 b _ Hs Hg) as [_ E1].
  destruct (iter_update_fall 1 b _ Hs Hg) as [_ E2].
  destruct (iter_update_fall 2 b _ Hs Hg) as [_ E3].
  destruct (iter_update_fall 3 b _ Hs Hg) as [_ E4].
  destruct (iter_update_fall 4 b _ Hs Hg) as [Hv E5].
  change (Nat.iter 0 Bird_update b) with b in E1.
  split; [rewrite Hv; vm_compute; reflexivity|].
  split.
  { intros Hy. rewrite E5, E4, E3, E2, E1.
    rewrite (py_add_compat (bird_y b) 250 _ _ Hy (Qeq_refl _)).
    vm_compute. reflexivity. }
  split.
  { intros Hy. rewrite E5, E4, E3, E2, E1.
    let c := eval vm_compute in (fall (binary64 0.4) 1) in
      change (fall (binary64 0.4) 1) with c.
    let c := eval vm_compute in (fall (binary64 0.4) 2) in
      change (fall (binary64 0.4) 2) with c.
    let c := eval vm_compute in (fall (binary64 0.4) 3) in
      change (fall (binary64 0.4) 3) with c.
    let c := eval vm_compute in (fall (binary64 0.4) 4) in
      change (fall (binary64 0.4) 4) with c.
    let c := eval vm_compute in (fall (binary64 0.4) 5) in
      change (fall (binary64 0.4) 5) with c.
    match goal with
    | |- context [py_add (py_add (py_add (py_add (py_add ?y0 ?c1) ?c2)
                                    ?c3) ?c4) ?c5] =>
        pose proof (py_add_error y0 c1) as B1;
        set (y1 := py_add y0 c1) in *;
        pose proof (py_add_error y1 c2) as B2;
        set (y2 := py_add y1 c2) in *;
        pose proof (py_add_error y2 c3) as B3;
        set (y3 := py_add y2 c3) in *;
        pose proof (py_add_error y3 c4) as B4;
        set (y4 := py_add y3 c4) in *;
        pose proof (py_add_error y4 c5) as B5;
        set (y5 := py_add y4 c5) in *
    end.
    specialize (B1 ltac:(lra)). specialize (B2 ltac:(lra)).
    specialize (B3 ltac:(lra)). specialize (B4 ltac:(lra)).
    specialize (B5 ltac:(lra)). lra. }
  split; [intros b'; split; reflexivity|].
  split; [intros b'; split; reflexivity|].
  split.
  - intros g Hst. unfold handle_event. rewrite Hst. reflexivity.
  - intros x y. now rewrite Bird_init_default.
Qed.

Lemma gravity_five_ticks_and_jump_witness :
  speed_y (Nat.iter 5 Bird_update default_bird) = 2%Q
  /\ bird_y (Nat.iter 5 Bird_update default_bird) = 256%Q.
Proof.
  pose proof (gravity_five_ticks_and_jump default_bird) as H.
  destruct H as (H1 & H2 & _); [reflexivity | reflexivity |].
  split; [exact H1 | apply H2; reflexivity].
Defined.

(** C8, refuted as stated: [y] does not always gain exactly 6.  Started at
    y = 7 (a configured [start_y]) the five ticks take [y] to 7.4, 8.2, 9.4,
    11.0 and 13.000000000000002, the velocity to 2; the hardware's binary64
    additions give the same. *)
Lemma five_ticks_from_7 :
  Game_init start_at_7_file
  = Return (played start_at_7_file [])
  /\ bird_y (bird (played start_at_7_file [])) = 7%Q
  /\ speed_y (bird (played start_at_7_file [])) = 0%Q
  /\ gravity (bird (played start_at_7_file [])) = binary64 0.4
  /\ bird (played start_at_7_file (replicate 5 []))
     = Nat.iter 5 Bird_update (bird (played start_at_7_file []))
  /\ speed_y (bird (played start_at_7_file (replicate 5 []))) = 2%Q
  /\ bird_y (bird (played start_at_7_file (replicate 5 [])))
     = (7318349394477057 # 562949953421312)%Q
  /\ ~ (bird_y (bird (played start_at_7_file (replicate 5 []))) == 7 + 6)%Q
  /\ (Q_of_float 0x1.999999999999ap-2 == binary64 0.4)%Q
  /\ Nat.iter 5 (Binary64.update 0x1.999999999999ap-2) (0, 7)%float
     = (2, 0x1.a000000000001p+3)%float
  /\ (Q_of_float 0x1.a000000000001p+3
      == bird_y (bird (played start_at_7_file (replicate 5 []))))%Q.
Proof. vm_compute. repeat split; discriminate. Qed.

(** The five ticks of C8 on the hardware's binary64 values, from the
    default start: 0.4 is the double nearest to it, as in Python. *)
Example binary64_five_ticks :
  Nat.iter 5 (Binary64.update 0x1.999999999999ap-2) (0, 250)%float
  = (2, 256)%float.
Proof. vm_compute. reflexivity. Qed.

(** In free fall from the default start the model and the hardware agree
    on velocity and position, tick by tick (the bounds check aside): after
    3 ticks the velocity is 1.2000000000000002 for both. *)
Example model_rounds_as_the_hardware :
  forallb
    (fun n =>
       let m := Nat.iter n Bird_update default_bird in
       let f := Nat.iter n (Binary64.update 0x1.999999999999ap-2)
                  (0, 250)%float in
       Qeq_bool (speed_y m) (Q_of_float (fst f))
       && Qeq_bool (bird_y m) (Q_of_float (snd f)))
    (seq 0 100) = true
  /\ speed_y (Nat.iter 3 Bird_update default_bird)
     = (1351079888211149 # 1125899906842624)%Q
  /\ (Q_of_float 0x1.3333333333334p+0
      == speed_y (Nat.iter 3 Bird_update default_bird))%Q.
Proof. vm_compute. repeat split. Qed.

(** ** C9: leaving the screen *)

(** C9 (as the code behaves): a wall spawned at x = 600 with speed 2 and
    width 100 has its right edge at 700 - 2n after n ticks, so
    [is_offscreen] (right edge < 0) is false up to tick 350 and true from
    tick 351 on. *)
Theorem offscreen_from_tick_351 (w : Wall) (n : nat) :
  (wall_x w == 600)%Q -> rx (wall_rect w) = 600 ->
  (wall_speed w == 2)%Q -> rw (wall_rect w) = 100 ->
  right (wall_rect (Nat.iter n Wall_update w)) = 700 - 2 * Z.of_nat n
  /\ (Wall_is_offscreen (Nat.iter n Wall_update w) = true <-> (351 <= n)%nat).
Proof.
  intros Hx Hrx Hs Hw.
  assert (Hr : right (wall_rect (Nat.iter n Wall_update w))
               = 700 - 2 * Z.of_nat n).
  { unfold right. rewrite iter_Wall_update_rect_w, Hw.
    destruct n as [|n].
    - simpl. rewrite Hrx. reflexivity.
    - rewrite iter_Wall_update_rect_x.
      rewrite (to_int_integral _ (600 - 2 * Z.of_nat (S n))); [lia|].
      rewrite iter_Wall_update_x, Hx, Hs.
      unfold Z.sub. rewrite inject_Z_plus, inject_Z_opp, inject_Z_mult.
      ring. }
  split; [exact Hr|].
  unfold Wall_is_offscreen. rewrite Hr, Z.ltb_lt. lia.
Qed.

Lemma offscreen_from_tick_351_witness :
  Wall_is_offscreen (Nat.iter 351 Wall_update wall_at_600) = true
  /\ Wall_is_offscreen (Nat.iter 350 Wall_update wall_at_600) = false.
Proof.
  split.
  - apply (offscreen_from_tick_351 wall_at_600 351);
      [reflexivity | reflexivity | reflexivity | reflexivity | lia].
  - destruct (Wall_is_offscreen (Nat.iter 350 Wall_update wall_at_600)) eqn:E;
      [|reflexivity].
    apply (offscreen_from_tick_351 wall_at_600 350) in E;
      [lia | reflexivity | reflexivity | reflexivity | reflexivity].
Defined.

(** C9, refuted as stated: at tick 301 the left edge is at -2 and the right
    edge at 98, so the wall is still on screen. *)
Lemma not_offscreen_at_tick_301 :
  Wall_init 600 300 empty_config false = Return wall_at_600
  /\ rx (wall_rect (Nat.iter 301 Wall_update wall_at_600)) = -2
  /\ right (wall_rect (Nat.iter 301 Wall_update wall_at_600)) = 98
  /\ Wall_is_offscreen (Nat.iter 301 Wall_update wall_at_600) = false.
Proof. vm_compute. repeat split. Qed.

(** ** C10: the anchor of the avatar's rectangle *)

(** C10: the constructor centres the rectangle on (x, y), so its top edge
    is at y - height/2; the first gravity tick puts the top edge at the
    updated y, and after that every gravity tick, jump and bounds check
    keeps y on the top edge (the rectangle stores y rounded to a pixel; a
    clamp makes them equal exactly), so the centre lies height/2 below y. *)
Theorem y_is_top_edge_after_first_tick (x y : Q) (cfg : Config) (b : Bird)
  (cs : list bird_call) :
  Bird_init x y cfg = Return b ->
  centery (bird_rect b) = to_int y
  /\ top (bird_rect b) = to_int y - bird_height b / 2
  /\ bird_y (Bird_update b) = py_add y (py_add 0 (gravity b))
  /\ top (bird_rect (Bird_update b)) = to_int (bird_y (Bird_update b))
  /\ top (bird_rect (bird_calls (Bird_update b) cs))
     = to_int (bird_y (bird_calls (Bird_update b) cs))
  /\ centery (bird_rect (bird_calls (Bird_update b) cs))
     = to_int (bird_y (bird_calls (Bird_update b) cs)) + bird_height b / 2
  /\ (forall b' h,
        match snd (check_bounds b' h) with
        | Some _ => bird_y (fst (check_bounds b' h))
                    = inject_Z (top (bird_rect (fst (check_bounds b' h))))
        | None => fst (check_bounds b' h) = b'
        end).
Proof.
  intros H.
  destruct (Bird_init_Return x y cfg b H) as (Hx & Hy & Hv & Hw & Hh & Hr).
  assert (Hsh : forall z, Z.shiftr z 1 = z / 2)
    by (intros z; now rewrite Z.shiftr_div_pow2).
  assert (Hrh : rh (bird_rect b) = bird_height b) by now rewrite Hr.
  assert (Hinv : y_is_top (bird_calls (Bird_update b) cs)).
  { apply bird_calls_y_is_top. now apply Bird_update_y_is_top. }
  assert (Hbh : forall cs' b0, bird_height (bird_calls b0 cs') = bird_height b0).
  { induction cs' as [|c cs' IH]; intros b0; [reflexivity|].
    cbn [bird_calls fold_left]. fold (bird_calls (bird_call_run b0 c) cs').
    rewrite IH. destruct c as [| |h0]; try reflexivity.
    cbn [bird_call_run]. unfold check_bounds.
    destruct (top (bird_rect b0) <=? 0);
      [|destruct (h0 <=? bottom (bird_rect b0))]; reflexivity. }
  repeat split.
  - rewrite Hr. unfold centery, set_center. cbn. lia.
  - rewrite Hr. unfold top, set_center. cbn. rewrite Hsh. lia.
  - rewrite Bird_update_y, Hy, Hv. reflexivity.
  - apply Hinv.
  - destruct Hinv as [Ht Hh']. unfold centery. rewrite Hh', Hsh.
    unfold top in Ht. rewrite Ht, Hbh. reflexivity.
  - intros b' h. pose proof (check_bounds_cases b' h) as Hc.
    destruct (snd (check_bounds b' h)) as [[|]|].
    + destruct Hc as (_ & _ & -> & ->). reflexivity.
    + destruct Hc as (_ & _ & _ & -> & Hb). unfold bottom in Hb.
      unfold top. f_equal.
      assert (rh (bird_rect (fst (check_bounds b' h))) = rh (bird_rect b')).
      { unfold check_bounds.
        destruct (top (bird_rect b') <=? 0);
          [|destruct (h <=? bottom (bird_rect b'))]; reflexivity. }
      lia.
    + apply Hc.
Qed.

Lemma y_is_top_edge_after_first_tick_witness :
  centery (bird_rect default_bird) = 250
  /\ top (bird_rect default_bird) = 250 - 35 / 2
  /\ top (bird_rect (Bird_update default_bird))
     = to_int (bird_y (Bird_update default_bird)).
Proof.
  destruct (y_is_top_edge_after_first_tick 100 250 empty_config default_bird [])
    as (H1 & H2 & _ & H3 & _).
  - vm_compute. reflexivity.
  - split; [exact H1 | split; [exact H2 | exact H3]].
Defined.

(** From the default start: the first tick moves the top edge from 233 to
    250; a jump and one more tick take [y] to 244.8, which the rectangle
    stores as 245. *)
Example first_tick_moves_top_edge :
  top (bird_rect default_bird) = 233
  /\ top (bird_rect (Bird_update default_bird)) = 250
  /\ bird_y (Bird_update default_bird) = binary64 250.4
  /\ bird_y (Bird_update (jump (Bird_update default_bird))) = binary64 244.8
  /\ top (bird_rect (Bird_update (jump (Bird_update default_bird)))) = 245.
Proof. vm_compute. repeat split. Qed.

(** * Further properties of the code *)

(** ** Helpers *)

Lemma run_stopped (frames : list (list event)) (g : Game) :
  running g = false -> run frames g = Return g.
Proof. intros H. destruct frames; [reflexivity|]. cbn [run]. now rewrite H. Qed.

(** ** Config: what is written in the file is what is read *)

(** X1.  A value stored under a key of a group is the value the two-step
    lookup [config.get(group).get(key, default)] returns, whatever the
    default; the other keys of the group and the other groups read as they
    did before the value was stored. *)
Theorem config_lookup_after_insert (path group key : string)
  (d s : gmap string json) (v dflt : json) :
  Config_get (mkConfig path (JDict (<[group := JDict (<[key := v]> s)]> d)))
             group
    ≫= (fun grp => py_get grp key dflt) = Return v
  /\ (forall key', key' <> key ->
        Config_get
          (mkConfig path (JDict (<[group := JDict (<[key := v]> s)]> d))) group
          ≫= (fun grp => py_get grp key' dflt)
        = py_get (JDict s) key' dflt)
  /\ (forall group', group' <> group ->
        Config_get
          (mkConfig path (JDict (<[group := JDict (<[key := v]> s)]> d)))
          group'
        = Config_get (mkConfig path (JDict d)) group').
Proof.
  unfold Config_get, py_get. cbn [data].
  split; [|split].
  - rewrite lookup_insert_eq. cbn. now rewrite lookup_insert_eq.
  - intros key' Hne. rewrite lookup_insert_eq. cbn.
    now rewrite lookup_insert_ne by congruence.
  - intros group' Hne. now rewrite lookup_insert_ne by congruence.
Qed.

Lemma py_get_not_dict (j : json) (key : string) (dflt : json) :
  is_dict j = false -> py_get j key dflt = Raise AttributeError.
Proof. destruct j; [reflexivity .. | discriminate]. Qed.

Lemma Config_get_present (c : Config) (d : gmap string json) (group : string)
  (v : json) :
  data c = JDict d -> d !! group = Some v -> Config_get c group = Return v.
Proof. intros Hd Hv. unfold Config_get, py_get. now rewrite Hd, Hv. Qed.

(** X2.  The default [{}] of [Config.get] only stands in for a group that
    is absent.  A group that is present with a value that is not a dict
    ([null], a number, a list) is handed out as it is, and every constructor
    that reads a key from it raises AttributeError. *)
Theorem group_must_be_a_dict (c : Config) (d : gmap string json) (v : json) :
  data c = JDict d -> is_dict v = false ->
  (d !! "bird_settings" = Some v ->
   (forall x y, Bird_init x y c = Raise AttributeError)
   /\ (forall h, start_bird c h = Raise AttributeError)
   /\ (forall g, config g = c -> restart_game g = Raise AttributeError))
  /\ (d !! "wall_settings" = Some v ->
      (forall x y fl, Wall_init x y c fl = Raise AttributeError)
      /\ (forall x h entropy,
            WallPair_init x h c entropy = Raise AttributeError)).
Proof.
  intros Hd Hv. split; intros Hg.
  - assert (Hs : forall h, start_bird c h = Raise AttributeError).
    { intros h. unfold start_bird.
      rewrite (Config_get_present c d _ v Hd Hg). cbn [mbind result_bind].
      rewrite !py_get_not_dict by exact Hv. reflexivity. }
    split; [|split].
    + intros x y. unfold Bird_init.
      rewrite (Config_get_present c d _ v Hd Hg). cbn [mbind result_bind].
      rewrite !py_get_not_dict by exact Hv. reflexivity.
    + exact Hs.
    + intros g <-. unfold restart_game. now rewrite Hs.
  - split.
    + intros x y fl. unfold Wall_init.
      rewrite (Config_get_present c d _ v Hd Hg). cbn [mbind result_bind].
      rewrite !py_get_not_dict by exact Hv. reflexivity.
    + intros x h entropy. unfold WallPair_init.
      rewrite (Config_get_present c d _ v Hd Hg). cbn [mbind result_bind].
      rewrite !py_get_not_dict by exact Hv. reflexivity.
Qed.

Lemma group_must_be_a_dict_witness :
  Bird_init 100 250 null_group_config = Raise AttributeError.
Proof.
  destruct (group_must_be_a_dict null_group_config
              {[ "bird_settings" := JNull ]} JNull) as [H _].
  - reflexivity.
  - reflexivity.
  - apply H. vm_compute. reflexivity.
Defined.

(** ** Bird: free fall, the screen and the ceiling *)

Lemma triangle_succ (k : Z) :
  (k + 1) * (k + 1 + 1) / 2 = k * (k + 1) / 2 + (k + 1).
Proof.
  replace ((k + 1) * (k + 1 + 1)) with (k * (k + 1) + (k + 1) * 2) by ring.
  apply Z.div_add. discriminate.
Qed.

(** X3.  Free fall with whole-number physics is exact.  When the gravity,
    the velocity v and the position y are whole numbers (Python [int]s), [n]
    gravity ticks leave the velocity at v + n g and the position at
    y + n v + g n (n + 1) / 2, and the rectangle's top edge there. *)
Theorem free_fall_closed_form (b : Bird) (v g y : Z) (n : nat) :
  (speed_y b == inject_Z v)%Q -> (gravity b == inject_Z g)%Q ->
  (bird_y b == inject_Z y)%Q ->
  (speed_y (Nat.iter n Bird_update b) == inject_Z (v + Z.of_nat n * g))%Q
  /\ (bird_y (Nat.iter n Bird_update b)
      == inject_Z (y + Z.of_nat n * v
                   + g * (Z.of_nat n * (Z.of_nat n + 1) / 2)))%Q
  /\ ((0 < n)%nat ->
      top (bird_rect (Nat.iter n Bird_update b))
      = y + Z.of_nat n * v + g * (Z.of_nat n * (Z.of_nat n + 1) / 2)).
Proof.
  intros Hv Hg Hy.
  assert (H : (speed_y (Nat.iter n Bird_update b)
               == inject_Z (v + Z.of_nat n * g))%Q
              /\ (bird_y (Nat.iter n Bird_update b)
                  == inject_Z (y + Z.of_nat n * v
                               + g * (Z.of_nat n * (Z.of_nat n + 1) / 2)))%Q).
  { induction n as [|n [IHv IHy]].
    - change (Nat.iter 0 Bird_update b) with b. split.
      + rewrite Hv. now replace (v + Z.of_nat 0 * g) with v by lia.
      + rewrite Hy.
        now replace (y + Z.of_nat 0 * v
                     + g * (Z.of_nat 0 * (Z.of_nat 0 + 1) / 2))
          with y
          by (change (Z.of_nat 0 * (Z.of_nat 0 + 1) / 2) with 0;
              change (Z.of_nat 0) with 0; lia).
    - change (Nat.iter (S n) Bird_update b)
        with (Bird_update (Nat.iter n Bird_update b)).
      rewrite Bird_update_y, Bird_update_speed, iter_update_gravity.
      rewrite (py_add_compat _ _ _ _ IHv Hg), py_add_inject_Z.
      rewrite (py_add_compat _ _ _ _ IHy (Qeq_refl _)), py_add_inject_Z.
      rewrite Nat2Z.inj_succ. unfold Z.succ. rewrite triangle_succ.
      split;
        match goal with
        | |- (inject_Z ?a == inject_Z ?c)%Q =>
            replace a with c by ring; reflexivity
        end. }
  split; [apply H|]. split; [apply H|].
  intros Hn. destruct n as [|n]; [lia|].
  change (Nat.iter (S n) Bird_update b)
    with (Bird_update (Nat.iter n Bird_update b)) in *.
  change (top (bird_rect (Bird_update (Nat.iter n Bird_update b))))
    with (to_int (bird_y (Bird_update (Nat.iter n Bird_update b)))).
  apply to_int_integral, H.
Qed.

Lemma free_fall_closed_form_witness :
  (speed_y (Nat.iter 10 Bird_update (bird (played integer_physics_file [])))
   == inject_Z (0 + 10 * 1))%Q
  /\ top (bird_rect (Nat.iter 10 Bird_update
                       (bird (played integer_physics_file []))))
     = 250 + 10 * 0 + 1 * (10 * (10 + 1) / 2).
Proof.
  destruct (free_fall_closed_form (bird (played integer_physics_file []))
              0 1 250 10) as (H1 & _ & H2).
  - reflexivity.
  - reflexivity.
  - reflexivity.
  - split; [exact H1 | apply H2; lia].
Defined.

(** X4.  When the avatar's rectangle is not taller than the screen, the
    bounds check leaves it on the screen, whatever it was given; it reports
    nothing exactly when the rectangle was strictly inside, and then changes
    nothing. *)
Theorem check_bounds_keeps_on_screen (b : Bird) (h : Z) :
  0 <= rh (bird_rect b) <= h ->
  0 <= top (bird_rect (fst (check_bounds b h)))
  /\ bottom (bird_rect (fst (check_bounds b h))) <= h
  /\ (snd (check_bounds b h) = None
      <-> 0 < top (bird_rect b) /\ bottom (bird_rect b) < h)
  /\ (snd (check_bounds b h) = None -> fst (check_bounds b h) = b).
Proof.
  intros Hh. unfold check_bounds, top, bottom.
  destruct (ry (bird_rect b) <=? 0) eqn:E1.
  - apply Z.leb_le in E1. cbn. repeat split; try lia; discriminate.
  - apply Z.leb_gt in E1.
    destruct (h <=? ry (bird_rect b) + rh (bird_rect b)) eqn:E2.
    + apply Z.leb_le in E2. cbn. repeat split; try lia; discriminate.
    + apply Z.leb_gt in E2. cbn. repeat split; try lia; reflexivity.
Qed.

Lemma check_bounds_keeps_on_screen_witness :
  0 <= top (bird_rect (fst (check_bounds (Bird_update default_bird) 500)))
  /\ bottom (bird_rect (fst (check_bounds (Bird_update default_bird) 500)))
     <= 500.
Proof.
  destruct (check_bounds_keeps_on_screen (Bird_update default_bird) 500)
    as (H1 & H2 & _).
  - vm_compute. split; discriminate.
  - split; [exact H1 | exact H2].
Defined.

(** X5.  For an avatar shorter than the screen the bounds check is
    idempotent: a second call returns the same avatar and the same report.
    An avatar resting on the ceiling or the floor keeps being reported
    there. *)
Theorem check_bounds_idempotent (b : Bird) (h : Z) :
  rh (bird_rect b) < h ->
  check_bounds (fst (check_bounds b h)) h = check_bounds b h.
Proof.
  intros Hh. unfold check_bounds at 2 3.
  destruct (top (bird_rect b) <=? 0) eqn:E1.
  - reflexivity.
  - destruct (h <=? bottom (bird_rect b)) eqn:E2.
    + cbn [fst]. unfold check_bounds, top, bottom. cbn.
      assert ((h - rh (bird_rect b) <=? 0) = false) as ->
          by (apply Z.leb_gt; lia).
      assert ((h <=? h - rh (bird_rect b) + rh (bird_rect b)) = true) as ->
          by (apply Z.leb_le; lia).
      replace (h - rh (bird_rect b) + rh (bird_rect b) - rh (bird_rect b))
        with (h - rh (bird_rect b)) by lia.
      reflexivity.
    + cbn [fst]. unfold check_bounds. now rewrite E1, E2.
Qed.

Lemma check_bounds_idempotent_witness :
  check_bounds (fst (check_bounds (Bird_update default_bird) 500)) 500
  = check_bounds (Bird_update default_bird) 500.
Proof.
  apply (check_bounds_idempotent (Bird_update default_bird) 500).
  vm_compute. reflexivity.
Defined.

Lemma bird_call_run_fixed (b : Bird) (c : bird_call) :
  bird_x (bird_call_run b c) = bird_x b
  /\ gravity (bird_call_run b c) = gravity b
  /\ jump_strength (bird_call_run b c) = jump_strength b
  /\ bird_width (bird_call_run b c) = bird_width b
  /\ bird_height (bird_call_run b c) = bird_height b
  /\ rx (bird_rect (bird_call_run b c)) = rx (bird_rect b)
  /\ rw (bird_rect (bird_call_run b c)) = rw (bird_rect b)
  /\ rh (bird_rect (bird_call_run b c)) = rh (bird_rect b).
Proof.
  destruct c as [| |h]; cbn [bird_call_run].
  - repeat split.
  - repeat split.
  - unfold check_bounds.
    destruct (top (bird_rect b) <=? 0);
      [|destruct (h <=? bottom (bird_rect b))]; repeat split.
Qed.

Lemma bird_calls_fixed (cs : list bird_call) (b : Bird) :
  bird_x (bird_calls b cs) = bird_x b
  /\ gravity (bird_calls b cs) = gravity b
  /\ jump_strength (bird_calls b cs) = jump_strength b
  /\ bird_width (bird_calls b cs) = bird_width b
  /\ bird_height (bird_calls b cs) = bird_height b
  /\ rx (bird_rect (bird_calls b cs)) = rx (bird_rect b)
  /\ rw (bird_rect (bird_calls b cs)) = rw (bird_rect b)
  /\ rh (bird_rect (bird_calls b cs)) = rh (bird_rect b).
Proof.
  revert b. induction cs as [|c cs IH]; intros b.
  - repeat split.
  - cbn [bird_calls fold_left]. fold (bird_calls (bird_call_run b c) cs).
    destruct (IH (bird_call_run b c))
      as (H1 & H2 & H3 & H4 & H5 & H6 & H7 & H8).
    destruct (bird_call_run_fixed b c)
      as (F1 & F2 & F3 & F4 & F5 & F6 & F7 & F8).
    repeat split; congruence.
Qed.

(** X6.  Whatever sequence of gravity ticks, jumps and bounds checks an
    avatar goes through, it never moves sideways and never changes size or
    physics: [x], the rectangle's left and right edges and its height, the
    gravity and the jump impulse stay as constructed. *)
Theorem bird_only_moves_vertically (b : Bird) (cs : list bird_call) :
  bird_x (bird_calls b cs) = bird_x b
  /\ left (bird_rect (bird_calls b cs)) = left (bird_rect b)
  /\ right (bird_rect (bird_calls b cs)) = right (bird_rect b)
  /\ rh (bird_rect (bird_calls b cs)) = rh (bird_rect b)
  /\ (bird_width (bird_calls b cs), bird_height (bird_calls b cs))
     = (bird_width b, bird_height b)
  /\ (gravity (bird_calls b cs), jump_strength (bird_calls b cs))
     = (gravity b, jump_strength b).
Proof.
  destruct (bird_calls_fixed cs b) as (H1 & H2 & H3 & H4 & H5 & H6 & H7 & H8).
  unfold left, right. rewrite H1, H2, H3, H4, H5, H6, H7, H8. repeat split.
Qed.

(** X7.  The ceiling holds the avatar.  With a gravity below half a pixel
    per tick and a jump whose sum with the gravity, as the gravity tick
    computes it, is below half a pixel, an avatar at the ceiling (as the
    bounds check leaves it when it reports the top) is back at the ceiling
    after every tick, with or without a jump: the rectangle rounds [y] to
    pixel 0 or above the screen, so the bounds check resets position and
    velocity again.  However many such ticks follow, and in an Active game
    too, the avatar stays as it was. *)
Theorem ceiling_holds_the_bird (b : Bird) (h : Z) :
  at_ceiling b -> number (gravity b) ->
  (gravity b < 1 # 2)%Q ->
  (py_add (jump_strength b) (gravity b) < 1 # 2)%Q ->
  check_bounds (Bird_update b) h = (b, Some TouchedTop)
  /\ check_bounds (Bird_update (jump b)) h = (b, Some TouchedTop)
  /\ (forall jumps : list bool,
        fold_left
          (fun b' (j : bool) =>
             fst (check_bounds (Bird_update (if j then jump b' else b')) h))
          jumps b = b)
  /\ (forall g,
        bird g = b -> height g = h -> game_status g = InGame ->
        bird (update_game_logic g) = b
        /\ bird (update_game_logic (set_bird g (jump b))) = b
        /\ touched g = Some TouchedTop).
Proof.
  intros (Hy & Hv & Ht) Hn Hg Hj.
  assert (H1 : check_bounds (Bird_update b) h = (b, Some TouchedTop)).
  { unfold check_bounds, Bird_update. cbn [bird_rect top set_y ry].
    assert (E : (to_int (py_add (bird_y b) (py_add (speed_y b) (gravity b)))
                 <=? 0) = true).
    { apply Z.leb_le, to_int_below_half. rewrite Hy, Hv.
      rewrite (py_add_0_l _ (py_add_number _ _)), (py_add_0_l _ Hn).
      exact Hg. }
    rewrite E. cbn. destruct b as [x y g j w ht v [rx0 ry0 rw0 rh0]].
    cbn in *. subst. reflexivity. }
  assert (H2 : check_bounds (Bird_update (jump b)) h = (b, Some TouchedTop)).
  { unfold check_bounds, Bird_update, jump. cbn [bird_rect top set_y ry
      bird_y speed_y gravity bird_x jump_strength bird_width bird_height].
    assert (E : (to_int (py_add (bird_y b)
                           (py_add (jump_strength b) (gravity b))) <=? 0)
                = true).
    { apply Z.leb_le, to_int_below_half. rewrite Hy.
      rewrite (py_add_0_l _ (py_add_number _ _)). exact Hj. }
    rewrite E. cbn. destruct b as [x y g j w ht v [rx0 ry0 rw0 rh0]].
    cbn in *. subst. reflexivity. }
  split; [exact H1|]. split; [exact H2|]. split.
  { intros jumps. induction jumps as [|j jumps IH]; [reflexivity|].
    cbn [fold_left]. destruct j; [rewrite H2 | rewrite H1]; exact IH. }
  intros g Hb Hh Hs.
  assert (Hu : forall g', game_status g' = InGame ->
                 bird (update_game_logic g') = ticked_bird g').
  { intros g' Hs'. now rewrite update_game_logic_game. }
  rewrite !Hu by assumption. unfold ticked_bird, touched.
  cbn [bird set_bird height]. rewrite Hb, Hh, H1, H2. repeat split.
Qed.

Lemma ceiling_holds_the_bird_witness :
  check_bounds (Bird_update bird_at_ceiling) 500
  = (bird_at_ceiling, Some TouchedTop)
  /\ check_bounds (Bird_update (jump bird_at_ceiling)) 500
     = (bird_at_ceiling, Some TouchedTop).
Proof.
  destruct (ceiling_holds_the_bird bird_at_ceiling 500) as (H1 & H2 & _).
  - vm_compute. repeat split.
  - right. exists 3602879701896397, (-53). vm_compute.
    repeat split; discriminate.
  - vm_compute. reflexivity.
  - vm_compute. reflexivity.
  - split; [exact H1 | exact H2].
Defined.

(** The bound is sharp: with a gravity of 0.6 the first tick takes [y] to
    0.6, which the rectangle stores as 1, and the bounds check lets the
    avatar go. *)
Example ceiling_lets_go_at_0_6 :
  let b := mkBird 100 0 (binary64 0.6) (-6) 60 35 0 (mkRect 70 0 60 35) in
  at_ceiling b
  /\ top (bird_rect (Bird_update b)) = 1
  /\ snd (check_bounds (Bird_update b) 500) = None.
Proof. vm_compute. repeat split. Qed.

(** Played without a configuration file, with a jump in each of the first 60
    frames: the avatar reaches the ceiling and is still there 200 frames of
    free fall later. *)
Example default_bird_reaches_ceiling :
  bird <$> (Game_init no_file
            ≫= run (replicate 60 [KEYDOWN K_SPACE] ++ replicate 200 []))
  = Return bird_at_ceiling.
Proof. vm_compute. reflexivity. Qed.

(** ** Wall: leaving for good *)





Lemma is_behind_no_collision (w : Wall) (r : Rect) :
  0 <= rw (wall_rect w) -> 0 <= rw r ->
  is_behind r w = true -> Wall_check_collision w r = false.
Proof.
  intros Hw Hr. unfold is_behind, Wall_check_collision, colliderect, right, left.
  intros H. apply Z.ltb_lt in H.
  destruct ((rw (wall_rect w) =? 0) || (rh (wall_rect w) =? 0)
            || (rw r =? 0) || (rh r =? 0)); [reflexivity|].
  assert (E : (Z.min (rx r) (rx r + rw r)
               <? Z.max (rx (wall_rect w)) (rx (wall_rect w) + rw (wall_rect w)))
              = false) by (apply Z.ltb_ge; lia).
  rewrite E. rewrite Bool.andb_false_r. reflexivity.
Qed.

(** X9.  A wall does not collide with a rectangle it is behind, nor with
    one it has not reached yet (widths not negative): the point for passing
    a wall and a collision with that wall exclude each other. *)
Theorem wall_behind_cannot_collide (w : Wall) (r : Rect) :
  0 <= rw (wall_rect w) -> 0 <= rw r ->
  (is_behind r w = true -> Wall_check_collision w r = false)
  /\ (right r <= left (wall_rect w) -> Wall_check_collision w r = false).
Proof.
  intros Hw Hr. split; [now apply is_behind_no_collision|].
  unfold Wall_check_collision, colliderect, right, left. intros H.
  destruct ((rw (wall_rect w) =? 0) || (rh (wall_rect w) =? 0)
            || (rw r =? 0) || (rh r =? 0)); [reflexivity|].
  assert (E : (Z.min (rx (wall_rect w)) (rx (wall_rect w) + rw (wall_rect w))
               <? Z.max (rx r) (rx r + rw r)) = false)
    by (apply Z.ltb_ge; lia).
  rewrite E. reflexivity.
Qed.

Lemma wall_behind_cannot_collide_witness :
  Wall_check_collision (Nat.iter 320 Wall_update wall_at_600) start_rect
  = false.
Proof.
  destruct (wall_behind_cannot_collide
              (Nat.iter 320 Wall_update wall_at_600) start_rect) as [H _].
  - vm_compute. discriminate.
  - vm_compute. discriminate.
  - apply H. vm_compute. reflexivity.
Defined.

(** ** WallPair: shape and safe passage *)

Lemma check_pass_loop_geometry (ws : list Wall) (r : Rect) :
  geometry <$> fst (check_pass_loop ws r) = geometry <$> ws.
Proof.
  induction ws as [|w ws IH]; [reflexivity|].
  cbn [check_pass_loop]. destruct (passed w).
  - destruct (check_pass_loop ws r) as [rest' res]. cbn in *. now rewrite IH.
  - unfold Wall_check_pass.
    destruct (negb (passed w) && (right (wall_rect w) <? left r)).
    + reflexivity.
    + destruct (check_pass_loop ws r) as [rest' res]. cbn in *. now rewrite IH.
Qed.

(** The pass test changes flags only. *)
Lemma WallPair_check_pass_geometry (p : WallPair) (r : Rect) :
  geometry <$> walls (fst (WallPair_check_pass p r)) = geometry <$> walls p
  /\ wall_height (fst (WallPair_check_pass p r)) = wall_height p
  /\ gap_height (fst (WallPair_check_pass p r)) = gap_height p.
Proof.
  unfold WallPair_check_pass. destruct (scored p); [now repeat split|].
  pose proof (check_pass_loop_geometry (walls p) r) as H.
  destruct (check_pass_loop (walls p) r) as [ws [|]]; cbn in *; now repeat split.
Qed.

Lemma geometry_two (ws : list Wall) (t b : Wall) :
  geometry <$> ws = geometry <$> [t; b] ->
  exists t' b', ws = [t'; b'] /\ geometry t' = geometry t
                /\ geometry b' = geometry b.
Proof.
  destruct ws as [|t' [|b' [|c ws]]]; try discriminate.
  cbn. intros H. exists t', b'.
  split; [reflexivity | split; congruence].
Qed.

Lemma geometry_rect (w w' : Wall) :
  geometry w = geometry w' ->
  wall_rect w = wall_rect w' /\ wall_x w = wall_x w'
  /\ wall_speed w = wall_speed w'.
Proof. unfold geometry. intros H. now injection H. Qed.

Lemma sound_wall_geometry (ws ws' : list Wall) :
  geometry <$> ws' = geometry <$> ws ->
  Forall sound_wall ws -> Forall sound_wall ws'.
Proof.
  revert ws'. induction ws as [|w ws IH]; intros [|w' ws'] H HF;
    try discriminate; [constructor|].
  cbn in H. injection H as Hx _ _ Hr _ Hrest.
  inversion HF as [|? ? Hs HF']; subst.
  constructor; [|now apply IH].
  unfold sound_wall, synced in *. now rewrite Hr, Hx.
Qed.

Lemma WallPair_init_well_built (x : Q) (h : Z) (cfg : Config) (entropy : Z)
  (p : WallPair) :
  WallPair_init x h cfg entropy = Return p -> well_built p /\ gap_kept p.
Proof.
  intros H. split; [split; [exact (WallPair_init_twin _ _ _ _ _ H)|]|];
    unfold WallPair_init in H;
    apply bind_Return in H as (wc & _ & H);
    apply bind_Return in H as (gap & _ & H);
    apply bind_Return in H as (lo & _ & H);
    apply bind_Return in H as (hi & _ & H);
    apply bind_Return in H as (wh & _ & H);
    apply bind_Return in H as (t & Ht & H);
    apply bind_Return in H as (b & Hb & H);
    injection H as <-;
    destruct (Wall_init_fresh _ _ _ _ _ Ht)
      as (_ & Hxt & _ & _ & Hwt & Hht & Hrxt & Hryt);
    destruct (Wall_init_fresh _ _ _ _ _ Hb)
      as (_ & Hxb & _ & _ & Hwb & Hhb & Hrxb & Hryb).
  - cbn. repeat constructor; try assumption; unfold synced; congruence.
  - exists t, b. cbn. rewrite to_int_inject_Z in Hryt.
    unfold bottom, top. repeat split; try assumption; lia.
Qed.

Lemma WallPair_update_well_built (p : WallPair) :
  well_built p -> well_built (WallPair_update p).
Proof.
  intros [Ht Hs]. split; [now apply WallPair_update_twin|].
  unfold WallPair_update. cbn. apply Forall_fmap.
  eapply Forall_impl; [exact Hs|].
  intros w (Hw & Hh & _). repeat split; assumption.
Qed.

Lemma WallPair_check_pass_well_built (p : WallPair) (r : Rect) :
  well_built p -> well_built (fst (WallPair_check_pass p r)).
Proof.
  intros [Ht Hs]. split; [now apply WallPair_check_pass_twin|].
  destruct (WallPair_check_pass_geometry p r) as (Hg & _).
  exact (sound_wall_geometry _ _ Hg Hs).
Qed.

Lemma WallPair_update_gap_kept (p : WallPair) :
  gap_kept p -> gap_kept (WallPair_update p).
Proof.
  intros (t & b & Hw & H1 & H2 & H3 & H4).
  exists (Wall_update t), (Wall_update b).
  unfold WallPair_update. rewrite Hw. cbn. repeat split; assumption.
Qed.

Lemma WallPair_check_pass_gap_kept (p : WallPair) (r : Rect) :
  gap_kept p -> gap_kept (fst (WallPair_check_pass p r)).
Proof.
  intros (t & b & Hw & H1 & H2 & H3 & H4).
  destruct (WallPair_check_pass_geometry p r) as (Hg & Hwh & Hgap).
  rewrite Hw in Hg. apply geometry_two in Hg as (t' & b' & Hw' & Gt & Gb).
  destruct (geometry_rect _ _ Gt) as (Rt & _).
  destruct (geometry_rect _ _ Gb) as (Rb & _).
  exists t', b'. rewrite Hwh, Hgap, Rt, Rb. repeat split; assumption.
Qed.

Lemma WallPair_frames_shape (rects : list Rect) (p : WallPair) :
  well_built p -> gap_kept p ->
  well_built (fst (WallPair_frames p rects))
  /\ gap_kept (fst (WallPair_frames p rects))
  /\ wall_height (fst (WallPair_frames p rects)) = wall_height p
  /\ gap_height (fst (WallPair_frames p rects)) = gap_height p.
Proof.
  revert p. induction rects as [|r rects IH]; intros p Hb Hg.
  - cbn. split; [exact Hb | split; [exact Hg | split; reflexivity]].
  - cbn [WallPair_frames].
    pose proof (WallPair_check_pass_well_built (WallPair_update p) r
                  (WallPair_update_well_built p Hb)) as Hb1.
    pose proof (WallPair_check_pass_gap_kept (WallPair_update p) r
                  (WallPair_update_gap_kept p Hg)) as Hg1.
    destruct (WallPair_check_pass_geometry (WallPair_update p) r)
      as (_ & Hwh & Hgap).
    change (wall_height (WallPair_update p)) with (wall_height p) in Hwh.
    change (gap_height (WallPair_update p)) with (gap_height p) in Hgap.
    destruct (WallPair_check_pass (WallPair_update p) r) as [p1 fired].
    cbn [fst] in *. specialize (IH p1 Hb1 Hg1).
    destruct (WallPair_frames p1 rects) as [p2 results]. cbn [fst] in *.
    destruct IH as (I1 & I2 & I3 & I4).
    split; [exact I1 | split; [exact I2 | split; congruence]].
Qed.

Lemma gap_kept_no_collision (p : WallPair) (r : Rect) :
  gap_kept p -> 0 <= rh r ->
  wall_height p <= top r ->
  bottom r <= to_int (py_add (inject_Z (wall_height p)) (gap_height p)) ->
  check_collisions p r = false.
Proof.
  intros (t & b & Hw & Ht & Hb & Hht & Hhb) Hr Htop Hbot.
  unfold check_collisions. rewrite Hw. cbn [existsb].
  unfold Wall_check_collision, colliderect, top, bottom in *.
  assert (E1 : (Z.min (ry r) (ry r + rh r)
                <? Z.max (ry (wall_rect t)) (ry (wall_rect t) + rh (wall_rect t)))
               = false) by (apply Z.ltb_ge; lia).
  assert (E2 : (Z.min (ry (wall_rect b)) (ry (wall_rect b) + rh (wall_rect b))
                <? Z.max (ry r) (ry r + rh r)) = false)
    by (apply Z.ltb_ge; lia).
  rewrite E1, E2.
  destruct ((rw (wall_rect t) =? 0) || (rh (wall_rect t) =? 0)
            || (rw r =? 0) || (rh r =? 0));
    destruct ((rw (wall_rect b) =? 0) || (rh (wall_rect b) =? 0)
              || (rw r =? 0) || (rh r =? 0));
    rewrite ?Bool.andb_false_r; reflexivity.
Qed.

(** X10.  The two walls of a pair built by the constructor move in
    lockstep and never move vertically: after any number of frames they
    have the same [x], speed, left and right edges, the top wall still ends
    at [wall_height] and the bottom wall still starts at
    [wall_height + gap_height], rounded to a pixel. *)
Theorem pair_keeps_its_shape (x : Q) (h : Z) (cfg : Config) (entropy : Z)
  (p : WallPair) (rects : list Rect) :
  WallPair_init x h cfg entropy = Return p ->
  exists t b,
    walls (fst (WallPair_frames p rects)) = [t; b]
    /\ wall_x t = wall_x b /\ wall_speed t = wall_speed b
    /\ left (wall_rect t) = left (wall_rect b)
    /\ right (wall_rect t) = right (wall_rect b)
    /\ bottom (wall_rect t) = wall_height p
    /\ top (wall_rect b)
       = to_int (py_add (inject_Z (wall_height p)) (gap_height p)).
Proof.
  intros H. destruct (WallPair_init_well_built _ _ _ _ _ H) as [Hb Hg].
  destruct (WallPair_frames_shape rects p Hb Hg)
    as ([(t & b & Hw & Hx & Hs & Hrx & Hrw & _) _] & Hk & Hwh & Hgap).
  destruct Hk as (t' & b' & Hw' & Hbot & Htop & _).
  rewrite Hw in Hw'. injection Hw' as <- <-.
  exists t, b. unfold left, right. rewrite Hrx, Hrw, <- Hwh, <- Hgap.
  repeat split; assumption.
Qed.

Lemma pair_keeps_its_shape_witness :
  exists t b,
    walls (fst (WallPair_frames pair_150 (replicate 100 start_rect))) = [t; b]
    /\ wall_x t = wall_x b.
Proof.
  destruct (pair_keeps_its_shape 600 500 empty_config 50 pair_150
              (replicate 100 start_rect)) as (t & b & H1 & H2 & _).
  - vm_compute. reflexivity.
  - exists t, b. split; [exact H1 | exact H2].
Defined.

Lemma bottom_wall_never_fires_witness :
  passed <$> bottom_wall
               (fst (WallPair_frames pair_150 (replicate 350 start_rect)))
  = Some false.
Proof.
  destruct (bottom_wall_never_fires 600 500 empty_config 50 pair_150
              (replicate 350 start_rect)) as [H _].
  - vm_compute. reflexivity.
  - exact H.
Defined.

(** X12.  The gap is safe.  A rectangle that lies between the bottom edge
    of the top wall and the top edge of the bottom wall never collides with
    the pair, wherever the pair has moved to, before and after the pair's
    next [update]. *)
Theorem gap_is_safe (x : Q) (h : Z) (cfg : Config) (entropy : Z)
  (p : WallPair) (rects : list Rect) (r : Rect) :
  WallPair_init x h cfg entropy = Return p ->
  0 <= rh r ->
  wall_height p <= top r ->
  bottom r <= to_int (py_add (inject_Z (wall_height p)) (gap_height p)) ->
  check_collisions (fst (WallPair_frames p rects)) r = false
  /\ hits r (fst (WallPair_frames p rects)) = false.
Proof.
  intros H Hr Htop Hbot.
  destruct (WallPair_init_well_built _ _ _ _ _ H) as [Hb Hg].
  destruct (WallPair_frames_shape rects p Hb Hg) as (_ & Hk & Hwh & Hgap).
  split.
  - apply gap_kept_no_collision; [exact Hk | exact Hr | |]; now rewrite Hwh, ?Hgap.
  - unfold hits. apply gap_kept_no_collision;
      [now apply WallPair_update_gap_kept | exact Hr | |];
      change (wall_height (WallPair_update ?q)) with (wall_height q);
      change (gap_height (WallPair_update ?q)) with (gap_height q);
      now rewrite Hwh, ?Hgap.
Qed.

Lemma gap_is_safe_witness :
  check_collisions (fst (WallPair_frames pair_150 (replicate 270 start_rect)))
                   start_rect = false.
Proof.
  destruct (gap_is_safe 600 500 empty_config 50 pair_150
              (replicate 270 start_rect) start_rect) as [H _].
  - vm_compute. reflexivity.
  - vm_compute. discriminate.
  - vm_compute. discriminate.
  - vm_compute. discriminate.
  - exact H.
Defined.

(** ** Game: what every reachable game satisfies *)

Lemma Forall_List_filter {A} (P : A -> Prop) (f : A -> bool) (l : list A) :
  Forall P l -> Forall P (List.filter f l).
Proof.
  induction 1 as [|a l Ha _ IH]; [constructor|].
  cbn. destruct (f a); [constructor|]; assumption.
Qed.

Lemma after_tick_well_built (r : Rect) (p : WallPair) :
  well_built p -> well_built (after_tick r p).
Proof.
  intros H. apply WallPair_check_pass_well_built.
  now apply WallPair_update_well_built.
Qed.

Lemma ticked_bird_rect (g : Game) :
  rx (bird_rect (ticked_bird g)) = rx (bird_rect (bird g))
  /\ rw (bird_rect (ticked_bird g)) = rw (bird_rect (bird g))
  /\ rh (bird_rect (ticked_bird g)) = rh (bird_rect (bird g)).
Proof.
  change (ticked_bird g)
    with (bird_calls (bird g) [CallBirdUpdate; CallCheckBounds (height g)]).
  destruct (bird_calls_fixed [CallBirdUpdate; CallCheckBounds (height g)]
              (bird g)) as (_ & _ & _ & _ & _ & H1 & H2 & H3).
  now repeat split.
Qed.

(** The pairs of a reachable game are well built and the avatar's
    rectangle has a size that is not negative. *)
Lemma reachable_sound (g : Game) :
  reachable g ->
  Forall well_built (wall_pairs g)
  /\ 0 <= rw (bird_rect (bird g)) /\ 0 <= rh (bird_rect (bird g)).
Proof.
  assert (Hstart : forall cfg h b, start_bird cfg h = Return b ->
                     0 <= rw (bird_rect b) /\ 0 <= rh (bird_rect b)).
  { intros cfg h b Hb.
    destruct (start_bird_Return _ _ _ Hb) as (_ & _ & _ & _ & Hi).
    destruct (Bird_init_Return _ _ _ _ Hi) as (_ & _ & _ & Hw & Hh & ->).
    cbn. now split. }
  induction 1 as [fs g H | g g' e _ IH H | g _ IH].
  - unfold Game_init in H.
    apply bind_Return in H as (cfg & _ & H).
    apply bind_Return in H as (gs & _ & H).
    apply bind_Return in H as (w & _ & H).
    apply bind_Return in H as (h & _ & H).
    apply bind_Return in H as (f & _ & H).
    apply bind_Return in H as (b & Hb & H).
    apply bind_Return in H as (wc & _ & H).
    apply bind_Return in H as (si & _ & H).
    injection H as <-. cbn. split; [constructor | exact (Hstart _ _ _ Hb)].
  - destruct IH as (IH1 & IH2). unfold handle_event in H.
    destruct e as [|[|]|entropy|].
    + cbn in H. injection H as <-. now split.
    + destruct (game_status g) eqn:Hs.
      * cbn in H. injection H as <-. now split.
      * apply bind_Return in H as (g2 & Hr & H).
        apply restart_game_Return in Hr as (b & Hb & ->).
        cbn in H. injection H as <-. cbn.
        split; [constructor | exact (Hstart _ _ _ Hb)].
    + cbn in H. injection H as <-. now split.
    + cbn in H. destruct (game_status g).
      * apply bind_Return in H as (p & Hp & H). injection H as <-. cbn.
        split; [|exact IH2]. apply Forall_app. split; [exact IH1|].
        constructor; [|constructor].
        exact (proj1 (WallPair_init_well_built _ _ _ _ _ Hp)).
      * injection H as <-. now split.
    + cbn in H. injection H as <-. now split.
  - destruct IH as (IH1 & IH2 & IH3). destruct (game_status g) eqn:Hs.
    + rewrite update_game_logic_game by exact Hs. cbn [wall_pairs bird].
      destruct (ticked_bird_rect g) as (_ & -> & ->).
      split; [|now split]. apply Forall_List_filter, Forall_fmap.
      eapply Forall_impl; [exact IH1|]. intros p. apply after_tick_well_built.
    + rewrite update_game_logic_menu by exact Hs. now split.
Qed.

Lemma played_reachable (fs : disk) (frames : list (list event)) (g : Game) :
  Game_init fs ≫= run frames = Return g -> reachable g.
Proof.
  intros H. apply bind_Return in H as (g0 & H0 & H).
  exact (run_reachable frames g0 g (reach_init fs g0 H0) H).
Qed.

Lemma floor_and_leave_reachable : reachable floor_and_leave.
Proof.
  apply (played_reachable integer_physics_file
           (frames_of (hover 420) spawns_from_89 438)).
  vm_compute. reflexivity.
Qed.

Lemma floor_and_pass_reachable : reachable floor_and_pass.
Proof.
  apply (played_reachable integer_physics_file
           (frames_of (hover 382) spawns_from_86 400)).
  vm_compute. reflexivity.
Qed.

(** ** Game: scoring, collisions and pairs that leave *)

(** X13.  In a reachable game a pair never scores and collides in the same
    tick: when its pass test fires, its walls are behind the avatar and its
    collision test is false. *)
Theorem scoring_pair_does_not_collide (g : Game) (p : WallPair) :
  reachable g -> In p (wall_pairs g) ->
  fires (bird_rect (ticked_bird g)) p = true ->
  hits (bird_rect (ticked_bird g)) p = false.
Proof.
  intros Hr Hin Hf.
  destruct (reachable_sound g Hr) as (Hps & Hbw & _).
  pose proof (proj1 (List.Forall_forall _ _) Hps p Hin) as Hp.
  apply WallPair_update_well_built in Hp.
  destruct Hp as [Htw Hs].
  unfold fires in Hf.
  rewrite (proj2 (WallPair_check_pass_twin _ (bird_rect (ticked_bird g)) Htw))
    in Hf.
  apply andb_true_iff in Hf as [_ Hf].
  destruct Htw as (t & b & Hw & _ & _ & Hrx & Hrw & _).
  unfold hits, check_collisions. rewrite Hw in *. cbn [existsb] in *.
  assert (Hb : is_behind (bird_rect (ticked_bird g)) b
               = is_behind (bird_rect (ticked_bird g)) t).
  { unfold is_behind, right. now rewrite Hrx, Hrw. }
  rewrite Hb, orb_false_r, orb_diag in Hf.
  inversion Hs as [|? ? (Hwt & _) Hs']; subst.
  inversion Hs' as [|? ? (Hwb & _) _]; subst.
  destruct (ticked_bird_rect g) as (_ & Hbw' & _).
  rewrite !is_behind_no_collision; try assumption; try reflexivity;
    try (rewrite Hbw'; assumption).
  now rewrite Hb.
Qed.

Lemma scoring_pair_does_not_collide_witness :
  hits (bird_rect (ticked_bird floor_and_pass))
       (nth 0 (wall_pairs floor_and_pass) pair_150) = false.
Proof.
  apply (scoring_pair_does_not_collide floor_and_pass).
  - exact floor_and_pass_reachable.
  - vm_compute. left. reflexivity.
  - vm_compute. reflexivity.
Defined.

Lemma offscreen_geometry (ws ws' : list Wall) :
  geometry <$> ws = geometry <$> ws' ->
  forallb Wall_is_offscreen ws = forallb Wall_is_offscreen ws'.
Proof.
  revert ws'. induction ws as [|w ws IH]; intros [|w' ws'] H;
    try discriminate; [reflexivity|].
  cbn in H. injection H as _ _ _ Hr _ Hrest.
  cbn. unfold Wall_is_offscreen at 1 3. rewrite Hr. f_equal. now apply IH.
Qed.

(** A well built pair that leaves the screen in front of an avatar whose
    left edge is not negative leaves scored. *)
Lemma after_tick_offscreen_scored (r : Rect) (p : WallPair) :
  well_built p -> 0 <= left r ->
  WallPair_is_offscreen (after_tick r p) = true ->
  scored (after_tick r p) = true.
Proof.
  intros Hp Hl Hoff. apply WallPair_update_well_built in Hp as [Htw _].
  unfold after_tick in *.
  destruct (WallPair_check_pass_flag (WallPair_update p) r) as [-> _].
  rewrite (proj2 (WallPair_check_pass_twin _ r Htw)).
  unfold WallPair_is_offscreen in Hoff.
  rewrite (offscreen_geometry _ _
             (proj1 (WallPair_check_pass_geometry (WallPair_update p) r)))
    in Hoff.
  destruct Htw as (t & b & Hw & _). rewrite Hw in *. cbn in Hoff |- *.
  apply andb_true_iff in Hoff as [Ht _].
  unfold Wall_is_offscreen in Ht. apply Z.ltb_lt in Ht.
  assert (is_behind r t = true) as -> by (apply Z.ltb_lt; lia).
  now destruct (scored p).
Qed.

Lemma unscored_filter_scored (f : WallPair -> bool) (ps : list WallPair) :
  Forall (fun q => f q = false -> scored q = true) ps ->
  unscored (List.filter f ps) = unscored ps.
Proof.
  unfold unscored. induction 1 as [|q ps Hq _ IH]; [reflexivity|].
  cbn [List.filter]. destruct (f q) eqn:E.
  - cbn [List.filter]. destruct (negb (scored q)); cbn [length]; lia.
  - rewrite (Hq eq_refl). cbn [negb]. exact IH.
Qed.

(** X14.  No pair leaves unscored.  In a reachable game whose avatar has
    its left edge on the screen, every pair that a tick removes has been
    scored (in that tick at the latest), so a tick keeps the sum of the score
    and the number of live unscored pairs. *)
Theorem no_pair_leaves_unscored (g : Game) :
  reachable g -> 0 <= left (bird_rect (bird g)) ->
  Forall (fun p =>
            on_screen (after_tick (bird_rect (ticked_bird g)) p) = false ->
            scored (after_tick (bird_rect (ticked_bird g)) p) = true)
         (wall_pairs g)
  /\ score (update_game_logic g) + unscored (wall_pairs (update_game_logic g))
     = score g + unscored (wall_pairs g).
Proof.
  intros Hr Hl. destruct (reachable_sound g Hr) as (Hps & _).
  assert (Hl' : 0 <= left (bird_rect (ticked_bird g))).
  { unfold left. now rewrite (proj1 (ticked_bird_rect g)). }
  assert (HF : Forall (fun p =>
              on_screen (after_tick (bird_rect (ticked_bird g)) p) = false ->
              scored (after_tick (bird_rect (ticked_bird g)) p) = true)
            (wall_pairs g)).
  { eapply Forall_impl; [exact Hps|]. intros p Hp Hoff.
    apply after_tick_offscreen_scored; [exact Hp | exact Hl' |].
    unfold on_screen in Hoff. now apply negb_false_iff in Hoff. }
  split; [exact HF|].
  destruct (game_status g) eqn:Hs.
  - rewrite update_game_logic_game by exact Hs. cbn [score wall_pairs].
    rewrite unscored_filter_scored.
    + pose proof (unscored_after_tick (bird_rect (ticked_bird g))
                    (wall_pairs g)). lia.
    + apply Forall_fmap. exact HF.
  - now rewrite update_game_logic_menu.
Qed.

Lemma no_pair_leaves_unscored_witness :
  score (update_game_logic floor_and_leave)
  + unscored (wall_pairs (update_game_logic floor_and_leave))
  = score floor_and_leave + unscored (wall_pairs floor_and_leave).
Proof.
  destruct (no_pair_leaves_unscored floor_and_leave) as [_ H].
  - exact floor_and_leave_reachable.
  - vm_compute. discriminate.
  - exact H.
Defined.

(** ** Game: events, the menu and quitting *)

Lemma handle_event_idle (g : Game) (e : event) :
  game_status g = InMenu -> idle_in_menu e = true ->
  handle_event g e = Return g.
Proof.
  intros Hs He. unfold handle_event.
  destruct e as [|[|]|entropy|]; try discriminate; cbn; now rewrite ?Hs.
Qed.

Lemma handle_events_idle (evs : list event) (g : Game) :
  game_status g = InMenu -> forallb idle_in_menu evs = true ->
  handle_events evs g = Return g.
Proof.
  intros Hs. induction evs as [|e evs IH]; [reflexivity|].
  cbn [forallb handle_events]. intros H.
  apply andb_true_iff in H as [He Hrest].
  rewrite (handle_event_idle g e Hs He). cbn. now apply IH.
Qed.

(** X15.  An Ended game is inert.  Spawn timer events, other keys and
    ticks leave it exactly as it is, frame after frame: no pair is spawned,
    moved or scored and the avatar does not move until the space key
    restarts the game (or the window is closed). *)
Theorem ended_game_is_inert (g : Game) (frames : list (list event)) :
  game_status g = InMenu ->
  forallb (forallb idle_in_menu) frames = true ->
  run frames g = Return g
  /\ update_game_logic g = g
  /\ (forall entropy, handle_event g (USEREVENT entropy) = Return g).
Proof.
  intros Hs Hf. split; [|split].
  - induction frames as [|evs frames IH]; [reflexivity|].
    cbn [forallb] in Hf. apply andb_true_iff in Hf as [He Hrest].
    cbn [run]. destruct (running g); [|reflexivity].
    rewrite (handle_events_idle evs g Hs He). cbn.
    rewrite (update_game_logic_menu g Hs). now apply IH.
  - now apply update_game_logic_menu.
  - intros entropy. now apply handle_event_idle.
Qed.

Lemma ended_game_is_inert_witness :
  run [[USEREVENT 7; KEYDOWN K_OTHER]; []; [OTHER; USEREVENT 8]] game_over
  = Return game_over.
Proof.
  destruct (ended_game_is_inert game_over
              [[USEREVENT 7; KEYDOWN K_OTHER]; []; [OTHER; USEREVENT 8]])
    as [H _].
  - vm_compute. reflexivity.
  - reflexivity.
  - exact H.
Defined.

Lemma handle_event_running (g g' : Game) (e : event) :
  handle_event g e = Return g' ->
  running g' = running g && negb (is_quit e).
Proof.
  unfold handle_event. intros H.
  destruct e as [|[|]|entropy|].
  - cbn in H. injection H as <-. cbn. now rewrite andb_false_r.
  - destruct (game_status g) eqn:Hs.
    + cbn in H. injection H as <-. cbn. now rewrite andb_true_r.
    + apply bind_Return in H as (g2 & Hr & H).
      apply restart_game_Return in Hr as (b & _ & ->).
      cbn in H. injection H as <-. cbn. now rewrite andb_true_r.
  - cbn in H. injection H as <-. cbn. now rewrite andb_true_r.
  - cbn in H. destruct (game_status g).
    + apply bind_Return in H as (p & _ & H). injection H as <-.
      cbn. now rewrite andb_true_r.
    + injection H as <-. cbn. now rewrite andb_true_r.
  - cbn in H. injection H as <-. cbn. now rewrite andb_true_r.
Qed.

Lemma handle_events_running (evs : list event) (g g' : Game) :
  handle_events evs g = Return g' ->
  running g' = running g && negb (existsb is_quit evs).
Proof.
  revert g. induction evs as [|e evs IH]; intros g H.
  - cbn in H. injection H as <-. cbn. now rewrite andb_true_r.
  - cbn [handle_events] in H. apply bind_Return in H as (g1 & H1 & H).
    rewrite (IH g1 H), (handle_event_running g g1 e H1). cbn [existsb].
    rewrite negb_orb. now rewrite andb_assoc.
Qed.

Lemma update_game_logic_running (g : Game) :
  running (update_game_logic g) = running g.
Proof.
  destruct (game_status g) eqn:Hs.
  - now rewrite update_game_logic_game.
  - now rewrite update_game_logic_menu.
Qed.

(** X16.  Closing the window stops the loop after the current frame.  The
    flag [running] is cleared by a QUIT event and by nothing else, and
    nothing sets it again; the events that follow QUIT in the same frame and
    the tick of that frame are still processed, and no later frame is. *)
Theorem quit_stops_after_the_frame (g g' : Game) (evs : list event)
  (rest : list (list event)) :
  running g = true -> handle_events evs g = Return g' ->
  running g' = negb (existsb is_quit evs)
  /\ (existsb is_quit evs = true ->
      run (evs :: rest) g = Return (update_game_logic g'))
  /\ (existsb is_quit evs = false ->
      run (evs :: rest) g = run rest (update_game_logic g')).
Proof.
  intros Hrun H. pose proof (handle_events_running evs g g' H) as Hr.
  rewrite Hrun in Hr. cbn in Hr. split; [exact Hr|].
  cbn [run]. rewrite Hrun, H. cbn. split; intros Hq; [|reflexivity].
  apply run_stopped. rewrite update_game_logic_running, Hr, Hq. reflexivity.
Qed.

Lemma quit_stops_after_the_frame_witness :
  run ([QUIT; KEYDOWN K_SPACE] :: [[KEYDOWN K_SPACE]; []]) default_game
  = Return (update_game_logic
              (set_running (set_bird default_game (jump default_bird)) false)).
Proof.
  destruct (quit_stops_after_the_frame default_game
              (set_running (set_bird default_game (jump default_bird)) false)
              [QUIT; KEYDOWN K_SPACE] [[KEYDOWN K_SPACE]; []]) as (_ & H & _).
  - reflexivity.
  - reflexivity.
  - apply H. reflexivity.
Defined.

(** X17.  Events never end a game and never touch the score of a running
    one: handling an event keeps the status and the score, except for the
    space key in an Ended game, which makes the game Active with score 0 and
    no pairs.  (Only a tick ends a game.) *)
Theorem events_never_end_the_game (g g' : Game) (e : event) :
  handle_event g e = Return g' ->
  (game_status g' = game_status g /\ score g' = score g
   /\ (game_status g = InMenu -> is_space e = false))
  \/ (game_status g = InMenu /\ e = KEYDOWN K_SPACE
      /\ game_status g' = InGame /\ score g' = 0 /\ wall_pairs g' = []).
Proof.
  unfold handle_event. intros H.
  destruct e as [|[|]|entropy|].
  - cbn in H. injection H as <-. left. now repeat split.
  - destruct (game_status g) eqn:Hs.
    + cbn in H. injection H as <-. left. cbn. now repeat split.
    + apply bind_Return in H as (g2 & Hr & H).
      apply restart_game_Return in Hr as (b & _ & ->).
      cbn in H. injection H as <-. right. now repeat split.
  - cbn in H. injection H as <-. left. now repeat split.
  - cbn in H. destruct (game_status g) eqn:Hs.
    + apply bind_Return in H as (p & _ & H). injection H as <-.
      left. cbn. now repeat split.
    + injection H as <-. left. now repeat split.
  - cbn in H. injection H as <-. left. now repeat split.
Qed.

Lemma events_never_end_the_game_witness :
  (game_status (set_bird default_game (jump default_bird))
   = game_status default_game
   /\ score (set_bird default_game (jump default_bird)) = score default_game
   /\ (game_status default_game = InMenu -> is_space (KEYDOWN K_SPACE) = false))
  \/ (game_status default_game = InMenu /\ KEYDOWN K_SPACE = KEYDOWN K_SPACE
      /\ game_status (set_bird default_game (jump default_bird)) = InGame
      /\ score (set_bird default_game (jump default_bird)) = 0
      /\ wall_pairs (set_bird default_game (jump default_bird)) = []).
Proof.
  apply (events_never_end_the_game default_game
           (set_bird default_game (jump default_bird)) (KEYDOWN K_SPACE)).
  reflexivity.
Defined.

(** ** Game: restart, spawning and whole runs *)

Lemma Game_init_start (fs : disk) (g0 : Game) :
  Game_init fs = Return g0 ->
  start_bird (config g0) (height g0) = Return (bird g0)
  /\ wall_pairs g0 = [] /\ game_status g0 = InGame /\ score g0 = 0
  /\ running g0 = true.
Proof.
  unfold Game_init. intros H.
  apply bind_Return in H as (cfg & _ & H).
  apply bind_Return in H as (gs & _ & H).
  apply bind_Return in H as (w & _ & H).
  apply bind_Return in H as (h & _ & H).
  apply bind_Return in H as (f & _ & H).
  apply bind_Return in H as (b & Hb & H).
  apply bind_Return in H as (wc & _ & H).
  apply bind_Return in H as (si & _ & H).
  injection H as <-. cbn. now repeat split.
Qed.

(** What no event and no tick changes. *)
Lemma reachable_from_fixed (g0 g : Game) :
  reachable_from g0 g ->
  config g = config g0 /\ width g = width g0 /\ height g = height g0
  /\ fps g = fps g0 /\ spawn_interval g = spawn_interval g0.
Proof.
  induction 1 as [| g g' e _ IH H | g _ IH]; [now repeat split| |].
  - destruct IH as (I1 & I2 & I3 & I4 & I5).
    rewrite <- I1, <- I2, <- I3, <- I4, <- I5. clear - H.
    unfold handle_event in H. destruct e as [|[|]|entropy|].
    + cbn in H. injection H as <-. now repeat split.
    + destruct (game_status g) eqn:Hs.
      * cbn in H. injection H as <-. now repeat split.
      * apply bind_Return in H as (g2 & Hr & H).
        apply restart_game_Return in Hr as (b & _ & ->).
        cbn in H. injection H as <-. now repeat split.
    + cbn in H. injection H as <-. now repeat split.
    + cbn in H. destruct (game_status g).
      * apply bind_Return in H as (p & _ & H). injection H as <-.
        now repeat split.
      * injection H as <-. now repeat split.
    + cbn in H. injection H as <-. now repeat split.
  - destruct IH as (I1 & I2 & I3 & I4 & I5).
    rewrite <- I1, <- I2, <- I3, <- I4, <- I5.
    destruct (game_status g) eqn:Hs.
    + rewrite update_game_logic_game by exact Hs. now repeat split.
    + rewrite update_game_logic_menu by exact Hs. now repeat split.
Qed.

Lemma handle_events_reachable_from (evs : list event) (g0 g g' : Game) :
  reachable_from g0 g -> handle_events evs g = Return g' ->
  reachable_from g0 g'.
Proof.
  revert g. induction evs as [|e evs IH]; intros g Hr H.
  - simpl in H. now injection H as <-.
  - cbn [handle_events] in H. apply bind_Return in H as (g1 & H1 & H).
    apply (IH g1); [|exact H]. exact (from_event g0 g g1 e Hr H1).
Qed.

Lemma run_reachable_from (frames : list (list event)) (g0 g g' : Game) :
  reachable_from g0 g -> run frames g = Return g' -> reachable_from g0 g'.
Proof.
  revert g. induction frames as [|evs frames IH]; intros g Hr H.
  - simpl in H. now injection H as <-.
  - cbn [run] in H. destruct (running g).
    + apply bind_Return in H as (g1 & H1 & H).
      apply (IH (update_game_logic g1)); [|exact H].
      apply from_tick. exact (handle_events_reachable_from evs g0 g g1 Hr H1).
    + now injection H as <-.
Qed.

(** X18.  A restart is a fresh start.  Whatever has happened since
    [Game.__init__] built the game, [restart_game] returns that first game
    again (same configuration and window, the avatar at its start, no pairs,
    score 0, Active); only the flag [running] is carried over. *)
Theorem restart_is_a_fresh_start (fs : disk) (g0 g : Game) :
  Game_init fs = Return g0 -> reachable_from g0 g ->
  restart_game g = Return (set_running g0 (running g))
  /\ (game_status g = InMenu ->
      handle_event g (KEYDOWN K_SPACE) = Return (set_running g0 (running g))).
Proof.
  intros Hi Hr.
  destruct (Game_init_start fs g0 Hi) as (Hb & Hp & Hs & Hsc & _).
  destruct (reachable_from_fixed g0 g Hr) as (I1 & I2 & I3 & I4 & I5).
  assert (H : restart_game g = Return (set_running g0 (running g))).
  { unfold restart_game. rewrite I1, I3, Hb. cbn.
    rewrite I2, I4, I5. unfold set_running. rewrite Hp, Hs, Hsc. reflexivity. }
  split; [exact H|]. intros Hm. unfold handle_event. rewrite Hm, H. reflexivity.
Qed.

Lemma game_over_from_default : reachable_from default_game game_over.
Proof.
  apply from_tick.
  apply (run_reachable_from (idle_frames 31) default_game default_game).
  - apply from_here.
  - vm_compute. reflexivity.
Qed.

Lemma restart_is_a_fresh_start_witness :
  restart_game game_over = Return (set_running default_game (running game_over)).
Proof.
  destruct (restart_is_a_fresh_start no_file default_game game_over) as [H _].
  - reflexivity.
  - exact game_over_from_default.
  - exact H.
Defined.

(** X19.  A spawn timer event in an Active game appends exactly one pair at
    the end of the list and changes nothing else.  The new pair is unscored,
    its walls are unpassed and have their left edge at the window's right
    edge, and its drawn height lies between its bounds. *)
Theorem spawn_appends_one_pair (g g' : Game) (entropy : Z) :
  game_status g = InGame ->
  handle_event g (USEREVENT entropy) = Return g' ->
  exists p,
    g' = set_wall_pairs g (wall_pairs g ++ [p])
    /\ WallPair_init (inject_Z (width g)) (height g) (config g) entropy
       = Return p
    /\ scored p = false
    /\ Forall (fun w => left (wall_rect w) = width g /\ passed w = false)
              (walls p)
    /\ length (walls p) = 2%nat
    /\ min_height p <= wall_height p <= max_height p.
Proof.
  intros Hs H. unfold handle_event in H. cbn in H. rewrite Hs in H.
  apply bind_Return in H as (p & Hp & H). injection H as <-.
  exists p. split; [reflexivity|]. split; [exact Hp|].
  split; [exact (WallPair_init_scored _ _ _ _ _ Hp)|].
  unfold WallPair_init in Hp.
  apply bind_Return in Hp as (wc & _ & Hp).
  apply bind_Return in Hp as (gap & _ & Hp).
  apply bind_Return in Hp as (lo & _ & Hp).
  apply bind_Return in Hp as (hi & _ & Hp).
  apply bind_Return in Hp as (wh & Hwh & Hp).
  apply bind_Return in Hp as (t & Ht & Hp).
  apply bind_Return in Hp as (b & Hb & Hp).
  injection Hp as <-. cbn.
  destruct (Wall_init_fresh _ _ _ _ _ Ht) as (Hpt & _ & _ & _ & _ & _ & Hrt & _).
  destruct (Wall_init_fresh _ _ _ _ _ Hb) as (Hpb & _ & _ & _ & _ & _ & Hrb & _).
  rewrite to_int_inject_Z in Hrt, Hrb.
  split; [|split; [reflexivity | exact (randint_range _ _ _ _ Hwh)]].
  repeat constructor; assumption.
Qed.

Lemma spawn_appends_one_pair_witness :
  exists p,
    set_wall_pairs default_game [pair_150]
    = set_wall_pairs default_game (wall_pairs default_game ++ [p])
    /\ scored p = false.
Proof.
  destruct (spawn_appends_one_pair default_game
              (set_wall_pairs default_game [pair_150]) 50)
    as (p & H1 & _ & H2 & _).
  - reflexivity.
  - vm_compute. reflexivity.
  - exists p. split; [exact H1 | exact H2].
Defined.

(** X20.  Height bounds the wrong way round are not noticed when the game
    starts ([Game.__init__] does not read them): the first pair cannot be
    built, [random.randint] refuses the empty range, and the ValueError
    leaves the event loop. *)
Theorem crossed_bounds_fail_at_first_spawn (c : Config) (wall_config : json)
  (gap : Q) (lo hi : Z) :
  Config_get c "wall_settings" = Return wall_config ->
  py_get wall_config "gap_height" (JInt 200) ≫= as_num = Return gap ->
  py_get wall_config "min_height" (JInt 100) ≫= as_int = Return lo ->
  py_get wall_config "max_height" (JInt 400) ≫= as_int = Return hi ->
  hi < lo ->
  (forall x h entropy, WallPair_init x h c entropy = Raise ValueError)
  /\ (forall g entropy,
        config g = c -> game_status g = InGame ->
        handle_event g (USEREVENT entropy) = Raise ValueError
        /\ (running g = true ->
            forall evs rest,
              run ((USEREVENT entropy :: evs) :: rest) g = Raise ValueError)).
Proof.
  intros Hwc Hgap Hlo Hhi Hlt.
  assert (H : forall x h entropy, WallPair_init x h c entropy = Raise ValueError).
  { intros x h entropy. unfold WallPair_init.
    rewrite Hwc. cbn [mbind result_bind]. rewrite Hgap.
    cbn [mbind result_bind]. rewrite Hlo. cbn [mbind result_bind].
    rewrite Hhi. cbn [mbind result_bind]. unfold randint.
    apply Z.ltb_lt in Hlt. now rewrite Hlt. }
  split; [exact H|]. intros g entropy Hc Hs.
  assert (He : handle_event g (USEREVENT entropy) = Raise ValueError).
  { unfold handle_event. cbn. rewrite Hs, Hc, H. reflexivity. }
  split; [exact He|]. intros Hrun evs rest.
  cbn [run handle_events]. now rewrite Hrun, He.
Qed.

Lemma crossed_bounds_fail_at_first_spawn_witness :
  WallPair_init 600 500 crossed_bounds_config 7 = Raise ValueError.
Proof.
  destruct (crossed_bounds_fail_at_first_spawn crossed_bounds_config
              (JDict (<[ "min_height" := JInt 400 ]>
                        {[ "max_height" := JInt 100 ]}))
              200 400 100) as [H _].
  - vm_compute. reflexivity.
  - vm_compute. reflexivity.
  - vm_compute. reflexivity.
  - vm_compute. reflexivity.
  - lia.
  - apply H.
Defined.

Example crossed_bounds_start_fine :
  returns (Game_init (fun _ => Return crossed_bounds)) = true
  /\ (Game_init (fun _ => Return crossed_bounds)
      ≫= run [[]; []; [USEREVENT 7]; []]) = Raise ValueError.
Proof. vm_compute. split; reflexivity. Qed.

Lemma handle_event_jump (g : Game) :
  game_status g = InGame ->
  handle_event g (KEYDOWN K_SPACE) = Return (set_bird g (jump (bird g))).
Proof. intros H. unfold handle_event. now rewrite H. Qed.

Lemma jumped_again (n : nat) (g : Game) :
  game_status g = InGame ->
  handle_events (replicate n (KEYDOWN K_SPACE)) (set_bird g (jump (bird g)))
  = Return (set_bird g (jump (bird g))).
Proof.
  intros Hs. induction n as [|n IH]; [reflexivity|].
  cbn [replicate handle_events].
  rewrite (handle_event_jump (set_bird g (jump (bird g))) Hs).
  exact IH.
Qed.

(** X22.  Several presses of the space key in one frame of an Active game
    are one jump. *)
Theorem repeated_jumps_are_one_jump (g : Game) (n : nat) :
  game_status g = InGame ->
  handle_events (replicate (S n) (KEYDOWN K_SPACE)) g
  = Return (set_bird g (jump (bird g))).
Proof.
  intros Hs. cbn [replicate handle_events].
  rewrite (handle_event_jump g Hs). exact (jumped_again n g Hs).
Qed.

Lemma repeated_jumps_are_one_jump_witness :
  handle_events (replicate 3 (KEYDOWN K_SPACE)) default_game
  = Return (set_bird default_game (jump (bird default_game))).
Proof.
  apply (repeated_jumps_are_one_jump default_game 2). reflexivity.
Defined.

(** X24.  After every tick of a reachable Active game whose avatar is not
    taller than the window, the avatar's rectangle lies on the screen; and
    if the game is still Active, the avatar is either strictly above the
    floor or resting against the ceiling. *)
Theorem avatar_stays_on_screen (g : Game) :
  reachable g -> game_status g = InGame ->
  rh (bird_rect (bird g)) <= height g ->
  0 <= top (bird_rect (bird (update_game_logic g)))
  /\ bottom (bird_rect (bird (update_game_logic g))) <= height g
  /\ (game_status (update_game_logic g) = InGame ->
      bottom (bird_rect (bird (update_game_logic g))) < height g
      \/ top (bird_rect (bird (update_game_logic g))) = 0).
Proof.
  intros Hr Hs Hh. destruct (reachable_sound g Hr) as (_ & _ & H0).
  rewrite update_game_logic_game by exact Hs. cbn [bird game_status].
  unfold ticked_bird, touched.
  pose proof (check_bounds_cases (Bird_update (bird g)) (height g)) as Hc.
  assert (Hrh : rh (bird_rect (Bird_update (bird g))) = rh (bird_rect (bird g)))
    by reflexivity.
  destruct (snd (check_bounds (Bird_update (bird g)) (height g)))
    as [[|]|] eqn:E.
  - destruct Hc as (_ & _ & _ & Ht).
    assert (Hb : rh (bird_rect (fst (check_bounds (Bird_update (bird g))
                                       (height g))))
                 = rh (bird_rect (bird g))) by apply (ticked_bird_rect g).
    unfold top, bottom in *. rewrite Ht, Hb.
    split; [lia|]. split; [lia|]. intros _. now right.
  - destruct Hc as (Ht & _ & _ & _ & Hb).
    assert (Hb' : rh (bird_rect (fst (check_bounds (Bird_update (bird g))
                                        (height g))))
                  = rh (bird_rect (bird g))) by apply (ticked_bird_rect g).
    unfold top, bottom in *. split; [lia|]. split; [lia|].
    cbn [is_bottom orb]. discriminate.
  - destruct Hc as (Ht & Hb & ->). split; [lia|]. split; [lia|].
    intros _. now left.
Qed.

Lemma avatar_stays_on_screen_witness :
  0 <= top (bird_rect (bird (update_game_logic floor_and_leave)))
  /\ bottom (bird_rect (bird (update_game_logic floor_and_leave)))
     <= height floor_and_leave.
Proof.
  destruct (avatar_stays_on_screen floor_and_leave) as (H1 & H2 & _).
  - exact floor_and_leave_reachable.
  - vm_compute. reflexivity.
  - vm_compute. discriminate.
  - split; [exact H1 | exact H2].
Defined.

(** ** MovingObject.move *)

Lemma iter_move_fixed (n : nat) (o : MovingObject) :
  mo_speed (Nat.iter n move o) = mo_speed o
  /\ mo_dx (Nat.iter n move o) = mo_dx o
  /\ mo_dy (Nat.iter n move o) = mo_dy o.
Proof. induction n as [|n IH]; [now repeat split | exact IH]. Qed.

Lemma move_rect (o : MovingObject) :
  mo_rect (move o)
  = match mo_rect o with
    | Some r =>
        if rect_bool r
        then Some (mkRect (to_int (mo_x (move o))) (to_int (mo_y (move o)))
                          (rw r) (rh r))
        else Some r
    | None => None
    end.
Proof. reflexivity. Qed.

Lemma iter_move_rect_size (n : nat) (o : MovingObject) (r : Rect) :
  mo_rect o = Some r ->
  exists r', mo_rect (Nat.iter n move o) = Some r'
             /\ rw r' = rw r /\ rh r' = rh r.
Proof.
  intros Hr. induction n as [|n (r' & H1 & H2 & H3)]; [now exists r|].
  change (Nat.iter (S n) move o) with (move (Nat.iter n move o)). rewrite move_rect, H1.
  destruct (rect_bool r'); eexists; split; try reflexivity; cbn; now split.
Qed.

Lemma iter_move_rect_none (n : nat) (o : MovingObject) :
  mo_rect o = None -> mo_rect (Nat.iter n move o) = None.
Proof.
  intros Hr. induction n as [|n IH]; [exact Hr|].
  change (Nat.iter (S n) move o) with (move (Nat.iter n move o)). now rewrite move_rect, IH.
Qed.

Lemma iter_move_rect_empty (n : nat) (o : MovingObject) (r : Rect) :
  mo_rect o = Some r -> rect_bool r = false ->
  mo_rect (Nat.iter n move o) = Some r.
Proof.
  intros Hr Hb. induction n as [|n IH]; [exact Hr|].
  change (Nat.iter (S n) move o) with (move (Nat.iter n move o)). now rewrite move_rect, IH, Hb.
Qed.

Lemma move_position (o : MovingObject) :
  mo_x (move o) = py_add (mo_x o) (py_mul (mo_dx o) (mo_speed o))
  /\ mo_y (move o) = py_add (mo_y o) (py_mul (mo_dy o) (mo_speed o)).
Proof. split; reflexivity. Qed.

(** With whole numbers the displacement is exact. *)
Lemma iter_move_whole (n : nat) (o : MovingObject) (x y s dx dy : Z) :
  (mo_x o == inject_Z x)%Q -> (mo_y o == inject_Z y)%Q ->
  (mo_speed o == inject_Z s)%Q ->
  (mo_dx o == inject_Z dx)%Q -> (mo_dy o == inject_Z dy)%Q ->
  (mo_x (Nat.iter n move o) == inject_Z (x + Z.of_nat n * (dx * s)))%Q
  /\ (mo_y (Nat.iter n move o) == inject_Z (y + Z.of_nat n * (dy * s)))%Q.
Proof.
  intros Hx Hy Hs Hdx Hdy. induction n as [|n [IH1 IH2]].
  - change (Nat.iter 0 move o) with o. rewrite Hx, Hy.
    now replace (x + Z.of_nat 0 * (dx * s)) with x by lia;
      replace (y + Z.of_nat 0 * (dy * s)) with y by lia.
  - change (Nat.iter (S n) move o) with (move (Nat.iter n move o)).
    destruct (move_position (Nat.iter n move o)) as [-> ->].
    destruct (iter_move_fixed n o) as (-> & -> & ->).
    rewrite (py_mul_compat _ _ _ _ Hdx Hs), (py_mul_compat _ _ _ _ Hdy Hs).
    rewrite !py_mul_inject_Z.
    rewrite (py_add_compat _ _ _ _ IH1 (Qeq_refl _)),
      (py_add_compat _ _ _ _ IH2 (Qeq_refl _)), !py_add_inject_Z.
    rewrite Nat2Z.inj_succ. unfold Z.succ.
    split;
      match goal with
      | |- (inject_Z ?a == inject_Z ?c)%Q =>
          replace a with c by ring; reflexivity
      end.
Qed.

(** An object as constructed has speed 0: it stays where it is. *)
Lemma iter_move_at_rest (n : nat) (x y : Q) :
  number x -> number y ->
  (mo_x (Nat.iter n move (MovingObject_init x y)) == x)%Q
  /\ (mo_y (Nat.iter n move (MovingObject_init x y)) == y)%Q.
Proof.
  intros Hx Hy. induction n as [|n [IH1 IH2]]; [now split|].
  change (Nat.iter (S n) move (MovingObject_init x y))
    with (move (Nat.iter n move (MovingObject_init x y))).
  destruct (move_position (Nat.iter n move (MovingObject_init x y)))
    as [-> ->].
  destruct (iter_move_fixed n (MovingObject_init x y)) as (-> & -> & ->).
  cbn [MovingObject_init mo_speed mo_dx mo_dy].
  change (py_mul 0 0) with 0%Q.
  rewrite (py_add_compat _ _ _ _ IH1 (Qeq_refl _)),
    (py_add_compat _ _ _ _ IH2 (Qeq_refl _)).
  split; now apply py_add_0_r.
Qed.

(** X23.  [move] keeps its course.  Any number of calls leaves speed and
    direction alone; with whole numbers (Python [int]s) [n] calls displace
    [x] by exactly [n dx speed] and [y] by [n dy speed]; an object as its
    constructor leaves it (speed and direction 0) is never displaced.  An
    object without a rectangle stays without one; a rectangle that is not
    empty follows the position, rounded to pixels, with its top-left corner
    and keeps its size; an empty one (zero width or height) counts as false
    and is left where it is. *)
Theorem move_keeps_course (o : MovingObject) (n : nat) :
  (mo_speed (Nat.iter n move o), mo_dx (Nat.iter n move o),
   mo_dy (Nat.iter n move o)) = (mo_speed o, mo_dx o, mo_dy o)
  /\ (forall x y s dx dy : Z,
        (mo_x o == inject_Z x)%Q -> (mo_y o == inject_Z y)%Q ->
        (mo_speed o == inject_Z s)%Q ->
        (mo_dx o == inject_Z dx)%Q -> (mo_dy o == inject_Z dy)%Q ->
        (mo_x (Nat.iter n move o) == inject_Z (x + Z.of_nat n * (dx * s)))%Q
        /\ (mo_y (Nat.iter n move o)
            == inject_Z (y + Z.of_nat n * (dy * s)))%Q)
  /\ (forall x y : Q,
        number x -> number y ->
        (mo_x (Nat.iter n move (MovingObject_init x y)) == x)%Q
        /\ (mo_y (Nat.iter n move (MovingObject_init x y)) == y)%Q
        /\ mo_rect (Nat.iter n move (MovingObject_init x y)) = None)
  /\ match mo_rect o with
     | None => mo_rect (Nat.iter n move o) = None
     | Some r =>
         if rect_bool r then
           mo_rect (Nat.iter (S n) move o)
           = Some (mkRect (to_int (mo_x (Nat.iter (S n) move o)))
                          (to_int (mo_y (Nat.iter (S n) move o)))
                          (rw r) (rh r))
         else mo_rect (Nat.iter n move o) = Some r
     end.
Proof.
  split.
  { destruct (iter_move_fixed n o) as (-> & -> & ->). reflexivity. }
  split; [intros x y s dx dy; apply iter_move_whole|]. split.
  { intros x y Hx Hy. destruct (iter_move_at_rest n x y Hx Hy) as [H1 H2].
    split; [exact H1|]. split; [exact H2|]. now apply iter_move_rect_none. }
  destruct (mo_rect o) as [r|] eqn:Hr.
  - destruct (rect_bool r) eqn:Hb.
    + destruct (iter_move_rect_size n o r Hr) as (r' & Hr' & Hw & Hh).
      change (Nat.iter (S n) move o) with (move (Nat.iter n move o)).
      rewrite move_rect, Hr'.
      assert (rect_bool r' = true) as ->
          by (unfold rect_bool in *; now rewrite Hw, Hh).
      now rewrite Hw, Hh.
    + now apply iter_move_rect_empty.
  - now apply iter_move_rect_none.
Qed.

(** An object at (2.5, 0.5) with a rectangle: the first call puts the
    rectangle at pixel (3, 1); moving 3 pixels to the right per call, ten
    calls take an object from 0 to 30. *)
Example move_rounds_to_pixels :
  mo_rect (move (mkMovingObject 2.5 0.5 0 0 0 (Some (mkRect 0 0 10 10))))
  = Some (mkRect 3 1 10 10)
  /\ mo_x (Nat.iter 10 move (mkMovingObject 0 0 3 1 0 None)) = 30%Q.
Proof. vm_compute. split; reflexivity. Qed.
